(** * Aegis Gateway: policy engine and request pipeline

    A shallow embedding of [internal/policy/policy.go] and
    [internal/gateway/gateway.go], and the properties of the policy
    evaluator, the condition checks, the loader, the hot-reload watcher
    and the HTTP pipeline. *)

From Stdlib Require Import ZArith String Ascii List Bool Lia.
From Stdlib Require Import Floats.SpecFloat.
From stdpp Require Import base option list gmap strings pretty.

Set Warnings "-register-all".
Local Open Scope string_scope.
Local Open Scope list_scope.

(** ** Outcomes of Go code

    A Go function either returns or panics.  The places where the source
    could panic (a slice expression, an index expression) are modelled as
    fallible, so that "never panics" is a statement about the code. *)

Inductive go (A : Type) : Type :=
| Done (a : A)
| Panicked (msg : string).
Arguments Done {A} a.
Arguments Panicked {A} msg.

Definition go_bind {A B} (m : go A) (k : A → go B) : go B :=
  match m with
  | Done a => k a
  | Panicked msg => Panicked msg
  end.

(** Go's [error] interface as the code uses it: [nil], or a message built
    by [fmt.Errorf] and read back with [err.Error()]. *)
Definition error := option string.

(** ** float64

    IEEE 754 binary64 values, in the Standard Library's specification of
    floats; [prec = 53], [emax = 1024]. *)

Definition float64 := spec_float.

(** The conversion [float64(v)] of an integer: round to nearest, ties to
    even. *)
Definition float64_of_int (v : Z) : float64 :=
  binary_normalize 53 1024 v 0 false.

(** Go's [x > y] on float64; false when either side is NaN. *)
Definition float64_gt (x y : float64) : bool := SFltb y x.

(** Go's [x <= y] on float64. *)
Definition float64_le (x y : float64) : bool := SFleb x y.

(** The integer nearest to [m * 2^e], ties to even: the digits that
    [strconv] keeps when it formats with precision 0. *)
Definition round_half_even (m : positive) (e : Z) : Z :=
  if (0 <=? e)%Z then (Z.pos m * 2 ^ e)%Z
  else
    let d := (2 ^ (- e))%Z in
    let q := (Z.pos m / d)%Z in
    let r := (Z.pos m mod d)%Z in
    match (2 * r ?= d)%Z with
    | Lt => q
    | Gt => (q + 1)%Z
    | Eq => if Z.even q then q else (q + 1)%Z
    end.

(** The verb [%.0f] of package fmt on a float64. *)
Definition fmt_f0 (x : float64) : string :=
  match x with
  | S754_nan => "NaN"
  | S754_infinity false => "+Inf"
  | S754_infinity true => "-Inf"
  | S754_zero s => (if s then "-" else "") +:+ "0"
  | S754_finite s m e =>
      (if s then "-" else "") +:+ pretty (round_half_even m e)
  end.

(** ** Dynamically typed values

    What an [interface{}] holds after [yaml.Unmarshal] or [json.Unmarshal]
    (or when a caller builds the map by hand). *)

Inductive value : Type :=
| VNil
| VBool (b : bool)
| VFloat64 (f : float64)
| VInt (n : Z)
| VInt64 (n : Z)
| VUint64 (n : Z)
| VString (s : string)
| VSlice (l : list value)
| VMap (m : gmap string value).

(** ** The policy document (policy.go, lines 14-31) *)

Record ToolAllowance := {
  Tool : string;
  Actions : list string;
  (** [None] is the nil map *)
  Conditions : option (gmap string value)
}.

Record AgentPolicy := {
  ID : string;
  Allow : list ToolAllowance
}.

Record Policy := {
  Version : string;
  Agents : list AgentPolicy
}.

(** ** checkConditions (policy.go, lines 224-295) *)

(** The slice expression [s[:n]]; it panics when [n > len(s)]. *)
Definition slice_to (s : string) (n : nat) : go string :=
  if (n <=? String.length s)%nat then Done (String.substring 0 n s)
  else Panicked "slice bounds out of range".

(** The type switch on a number, lines 229-238 and 241-250. *)
Definition as_float64 (v : value) : option float64 :=
  match v with
  | VFloat64 f => Some f
  | VInt n => Some (float64_of_int n)
  | VInt64 n => Some (float64_of_int n)
  | _ => None
  end.

(** Lines 226-256. *)
Definition check_max_amount (conditions params : gmap string value)
  : go error :=
  match conditions !! "max_amount" with
  | Some maxAmount =>
      match params !! "amount" with
      | Some amount =>
          match as_float64 amount with
          | None => Done (Some "amount must be a number")
          | Some amountFloat =>
              match as_float64 maxAmount with
              | None => Done (Some "max_amount must be a number")
              | Some maxFloat =>
                  if float64_gt amountFloat maxFloat
                  then Done (Some ("Amount exceeds max_amount=" +:+ fmt_f0 maxFloat))
                  else Done None
              end
          end
      | None => Done None
      end
  | None => Done None
  end.

(** The loop of lines 267-272. *)
Fixpoint currency_allowed (currencies : list value) (currencyStr : string)
  : bool :=
  match currencies with
  | [] => false
  | c :: rest =>
      match c with
      | VString cStr =>
          if String.eqb cStr currencyStr then true
          else currency_allowed rest currencyStr
      | _ => currency_allowed rest currencyStr
      end
  end.

(** Lines 259-278. *)
Definition check_currencies (conditions params : gmap string value)
  : go error :=
  match conditions !! "currencies" with
  | Some (VSlice currencies) =>
      match params !! "currency" with
      | Some currency =>
          match currency with
          | VString currencyStr =>
              if currency_allowed currencies currencyStr then Done None
              else Done (Some ("Currency " +:+ currencyStr
                                 +:+ " not in allowed currencies"))
          | _ => Done (Some "currency must be a string")
          end
      | None => Done None
      end
  | _ => Done None
  end.

(** Lines 281-292. *)
Definition check_folder_prefix (conditions params : gmap string value)
  : go error :=
  match conditions !! "folder_prefix" with
  | Some (VString prefix) =>
      match params !! "path" with
      | Some path =>
          match path with
          | VString pathStr =>
              if (String.length pathStr <? String.length prefix)%nat
              then Done (Some ("Path must start with prefix " +:+ prefix))
              else
                go_bind (slice_to pathStr (String.length prefix)) (λ head,
                  if negb (String.eqb head prefix)
                  then Done (Some ("Path must start with prefix " +:+ prefix))
                  else Done None)
          | _ => Done (Some "path must be a string")
          end
      | None => Done None
      end
  | _ => Done None
  end.

(** Run [next] unless [first] returned an error. *)
Definition and_then (first : go error) (next : go error) : go error :=
  go_bind first (λ err,
    match err with
    | Some reason => Done (Some reason)
    | None => next
    end).

Definition checkConditions (conditions params : gmap string value)
  : go error :=
  and_then (check_max_amount conditions params)
    (and_then (check_currencies conditions params)
       (check_folder_prefix conditions params)).

(** ** validatePolicy (policy.go, lines 121-141) *)

(** The inner loop, lines 130-137. *)
Fixpoint validate_allow (allows : list ToolAllowance) : error :=
  match allows with
  | [] => None
  | allow :: rest =>
      if String.eqb (Tool allow) "" then Some "tool name is required"
      else if (length (Actions allow) =? 0)%nat
      then Some ("at least one action is required for tool " +:+ Tool allow)
      else validate_allow rest
  end.

(** The outer loop, lines 126-138. *)
Fixpoint validate_agents (agents : list AgentPolicy) : error :=
  match agents with
  | [] => None
  | agent :: rest =>
      if String.eqb (ID agent) "" then Some "agent ID is required"
      else
        match validate_allow (Allow agent) with
        | Some err => Some err
        | None => validate_agents rest
        end
  end.

Definition validatePolicy (p : Policy) : error :=
  if String.eqb (Version p) "" then Some "policy version is required"
  else validate_agents (Agents p).

(** ** The engine (policy.go, lines 34-39) *)

(** [sync.RWMutex]: the number of readers inside and whether a writer is
    inside.  The four operations are what each does once it has been
    granted; when a call has to wait is part of the interleaving
    semantics of Module [Concurrent]. *)
Record RWMutex := {
  readers : nat;
  writer : bool
}.

Definition RLock (m : RWMutex) : RWMutex :=
  {| readers := S (readers m); writer := writer m |}.
Definition RUnlock (m : RWMutex) : RWMutex :=
  {| readers := Nat.pred (readers m); writer := writer m |}.
Definition Lock (m : RWMutex) : RWMutex :=
  {| readers := readers m; writer := true |}.
Definition Unlock (m : RWMutex) : RWMutex :=
  {| readers := readers m; writer := false |}.

(** The engine's fields; the store maps a file path to the Policy loaded
    from it.  A stored [*Policy] is written once, before it is published,
    and never through the pointer afterwards, so the store holds values. *)
Record PolicyEngine := {
  mu : RWMutex;
  policies : gmap string Policy;
  baseDir : string
}.

Definition with_mu (f : RWMutex → RWMutex) (pe : PolicyEngine)
  : PolicyEngine :=
  {| mu := f (mu pe); policies := policies pe; baseDir := baseDir pe |}.

Definition with_policies (f : gmap string Policy → gmap string Policy)
    (pe : PolicyEngine) : PolicyEngine :=
  {| mu := mu pe; policies := f (policies pe); baseDir := baseDir pe |}.

(** ** Evaluate (policy.go, lines 179-221) *)

(** Lines 196-202: is [action] among the allowance's actions. *)
Fixpoint action_allowed (actions : list string) (action : string) : bool :=
  match actions with
  | [] => false
  | a :: rest => if String.eqb a action then true
                 else action_allowed rest action
  end.

(** Lines 208-215: the verdict of an allowance that matched. *)
Definition verdict (allow : ToolAllowance) (params : gmap string value)
  : go (bool * string) :=
  match Conditions allow with
  | Some conditions =>
      go_bind (checkConditions conditions params) (λ err,
        match err with
        | Some reason => Done (false, reason)
        | None => Done (true, "")
        end)
  | None => Done (true, "")
  end.

(** The loop of lines 190-216; [Some r] when the function returns [r]
    from inside the loop, [None] when the loop runs to its end. *)
Fixpoint scan_allow (allows : list ToolAllowance) (tool action : string)
    (params : gmap string value) : option (go (bool * string)) :=
  match allows with
  | [] => None
  | allow :: rest =>
      if negb (String.eqb (Tool allow) tool)
      then scan_allow rest tool action params
      else if negb (action_allowed (Actions allow) action)
      then scan_allow rest tool action params
      else Some (verdict allow params)
  end.

(** The loop of lines 185-217. *)
Fixpoint scan_agents (agents : list AgentPolicy)
    (agentID tool action : string) (params : gmap string value)
  : option (go (bool * string)) :=
  match agents with
  | [] => None
  | agentPolicy :: rest =>
      if negb (String.eqb (ID agentPolicy) agentID)
      then scan_agents rest agentID tool action params
      else
        match scan_allow (Allow agentPolicy) tool action params with
        | Some r => Some r
        | None => scan_agents rest agentID tool action params
        end
  end.

(** The loop of lines 184-218 over the policies in the order the map
    iteration yields them. *)
Fixpoint scan_policies (visited : list Policy)
    (agentID tool action : string) (params : gmap string value)
  : option (go (bool * string)) :=
  match visited with
  | [] => None
  | policy :: rest =>
      match scan_agents (Agents policy) agentID tool action params with
      | Some r => Some r
      | None => scan_policies rest agentID tool action params
      end
  end.

(** [for _, policy := range pe.policies]: Go leaves the order of a map
    iteration unspecified, so the order of the keys is an argument. *)
Definition range_policies (store : gmap string Policy) (order : list string)
  : list Policy :=
  omap (λ k, store !! k) order.

(** [order] is an order in which a map iteration can yield the keys of
    the store: each key once. *)
Definition iteration_order (store : gmap string Policy)
    (order : list string) : Prop :=
  order ≡ₚ (map_to_list store).*1.

Definition not_allowed (agentID tool action : string) : string :=
  "Agent " +:+ agentID +:+ " is not allowed to perform action " +:+ action
    +:+ " on tool " +:+ tool.

(** The body of Evaluate between RLock and RUnlock. *)
Definition evaluate_locked (store : gmap string Policy) (order : list string)
    (agentID tool action : string) (params : gmap string value)
  : go (bool * string) :=
  match scan_policies (range_policies store order) agentID tool action params
  with
  | Some r => r
  | None => Done (false, not_allowed agentID tool action)
  end.

(** Evaluate returns its result and the engine as it leaves it; the
    deferred RUnlock runs on every way out. *)
Definition Evaluate (pe : PolicyEngine) (order : list string)
    (agentID tool action : string) (params : gmap string value)
  : go (bool * string) * PolicyEngine :=
  let pe1 := with_mu RLock pe in
  let r := evaluate_locked (policies pe1) order agentID tool action params in
  (r, with_mu RUnlock pe1).

(** ** The operating system and the libraries the loader calls *)

(** A call that returns [(x, err)]: the value, or the text of the error. *)
Inductive result (A : Type) : Type :=
| Ok (a : A)
| Err (msg : string).
Arguments Ok {A} a.
Arguments Err {A} msg.

Record DirEntry := {
  entry_Name : string;
  entry_IsDir : bool
}.

Inductive ReadDirResult :=
| ReadDir_ok (entries : list DirEntry)
| ReadDir_not_exist (err : string)
| ReadDir_failed (err : string).

(** What the file system answers at one moment. *)
Record FileSystem := {
  os_ReadDir : string → ReadDirResult;
  os_ReadFile : string → result string;
  (** [fsnotify.NewWatcher()] and [watcher.Add(dir)] *)
  fsnotify_NewWatcher : error;
  fsnotify_Add : string → error
}.

(** Does [s] contain a path separator. *)
Fixpoint has_separator (s : string) : bool :=
  match s with
  | EmptyString => false
  | String c rest => Ascii.eqb c "/" || has_separator rest
  end.

(** [filepath.Ext]: the suffix beginning at the last dot of the last
    element of the path, empty when that element has no dot. *)
Fixpoint filepath_Ext (path : string) : string :=
  match path with
  | EmptyString => ""
  | String c rest =>
      let e := filepath_Ext rest in
      if has_separator rest then e
      else if negb (String.eqb e "") then e
      else if Ascii.eqb c "." then path
      else ""
  end.

Section Loader.

(** [yaml.Unmarshal(data, &policy)] of gopkg.in/yaml.v3 *)
Variable yaml_Unmarshal : string → result Policy.

(** [filepath.Join] *)
Variable filepath_Join : string → string → string.

(** *** loadPolicyFile (policy.go, lines 96-118) *)
Definition loadPolicyFile (fs : FileSystem) (pe : PolicyEngine)
    (filePath : string) : error * PolicyEngine :=
  match os_ReadFile fs filePath with
  | Err err => (Some ("failed to read file: " +:+ err), pe)
  | Ok data =>
      match yaml_Unmarshal data with
      | Err err => (Some ("failed to parse YAML: " +:+ err), pe)
      | Ok policy =>
          match validatePolicy policy with
          | Some err => (Some ("invalid policy: " +:+ err), pe)
          | None =>
              let pe1 := with_mu Lock pe in
              let pe2 := with_policies (insert filePath policy) pe1 in
              (None, with_mu Unlock pe2)
          end
      end
  end.

(** The test of line 81. *)
Definition skipped (entry : DirEntry) : bool :=
  entry_IsDir entry
  || (negb (String.eqb (filepath_Ext (entry_Name entry)) ".yaml")
      && negb (String.eqb (filepath_Ext (entry_Name entry)) ".yml")).

(** The loop of lines 80-90; a file's error is printed and dropped. *)
Fixpoint load_entries (fs : FileSystem) (entries : list DirEntry)
    (pe : PolicyEngine) : PolicyEngine :=
  match entries with
  | [] => pe
  | entry :: rest =>
      if skipped entry then load_entries fs rest pe
      else
        let filePath := filepath_Join (baseDir pe) (entry_Name entry) in
        load_entries fs rest (snd (loadPolicyFile fs pe filePath))
  end.

(** *** loadAllPolicies (policy.go, lines 71-93) *)
Definition loadAllPolicies (fs : FileSystem) (pe : PolicyEngine)
  : error * PolicyEngine :=
  match os_ReadDir fs (baseDir pe) with
  | ReadDir_not_exist _ =>
      (Some ("policies directory does not exist: " +:+ baseDir pe), pe)
  | ReadDir_failed err =>
      (Some ("failed to read policies directory: " +:+ err), pe)
  | ReadDir_ok entries => (None, load_entries fs entries pe)
  end.

(** *** NewPolicyEngine (policy.go, lines 42-68) *)
Definition NewPolicyEngine (fs : FileSystem) (policiesDir : string)
  : result PolicyEngine :=
  let pe := {| mu := {| readers := 0; writer := false |};
               policies := ∅;
               baseDir := policiesDir |} in
  match fsnotify_NewWatcher fs with
  | Some err => Err ("failed to create file watcher: " +:+ err)
  | None =>
      match loadAllPolicies fs pe with
      | (Some err, _) => Err err
      | (None, pe') =>
          match fsnotify_Add fs policiesDir with
          | Some err => Err ("failed to watch policies directory: " +:+ err)
          | None => Ok pe'
          end
      end
  end.

(** *** watchForChanges (policy.go, lines 144-176) *)

Record Event := {
  event_Name : string;
  event_Op : Z
}.

(** The bits of [fsnotify.Op]. *)
Definition fsnotify_Create : Z := 1.
Definition fsnotify_Write : Z := 2.
Definition fsnotify_Remove : Z := 4.
Definition fsnotify_Rename : Z := 8.
Definition fsnotify_Chmod : Z := 16.

(** [op&flag == flag] *)
Definition has_op (op flag : Z) : bool := (Z.land op flag =? flag)%Z.

(** Lines 152-167: one event; [fs] is the file system as it is when
    the handler reads the file, after the pause of line 154. *)
Definition handle_event (fs : FileSystem) (pe : PolicyEngine)
    (event : Event) : PolicyEngine :=
  let pe1 :=
    if has_op (event_Op event) fsnotify_Write
       || has_op (event_Op event) fsnotify_Create
    then snd (loadPolicyFile fs pe (event_Name event))
    else pe in
  if has_op (event_Op event) fsnotify_Remove
  then
    let pe2 := with_mu Lock pe1 in
    let pe3 := with_policies (delete (event_Name event)) pe2 in
    with_mu Unlock pe3
  else pe1.

(** What the [select] of line 146 receives. *)
Inductive delivery :=
| on_Events (fs : FileSystem) (event : Event)
| on_Events_closed
| on_Errors (err : string)
| on_Errors_closed.

(** The loop, run on the deliveries that arrive; it returns when a
    channel is closed. *)
Fixpoint watchForChanges (arrivals : list delivery) (pe : PolicyEngine)
  : PolicyEngine :=
  match arrivals with
  | [] => pe
  | on_Events fs event :: rest =>
      watchForChanges rest (handle_event fs pe event)
  | on_Errors _ :: rest => watchForChanges rest pe
  | on_Events_closed :: _ => pe
  | on_Errors_closed :: _ => pe
  end.

End Loader.

(** ** The gateway (gateway.go) *)

Record Request := {
  URL_Path : string;
  (** the header fields, keyed as [Header.Get] looks them up *)
  Header : gmap string (list string);
  (** what [io.ReadAll(r.Body)] returns *)
  Body : result string
}.

Inductive ResponseBody :=
| body_text (s : string)
| body_json (obj : gmap string string).

Record Response := {
  StatusCode : Z;
  ResponseHeader : list (string * string);
  Written : ResponseBody
}.

Definition StatusBadRequest : Z := 400.
Definition StatusForbidden : Z := 403.
Definition StatusInternalServerError : Z := 500.

Definition newline : string := String "010" "".

(** [http.Error(w, msg, code)] on a response that nothing was written to. *)
Definition http_Error (msg : string) (code : Z) : Response :=
  {| StatusCode := code;
     ResponseHeader := [("Content-Type", "text/plain; charset=utf-8");
                        ("X-Content-Type-Options", "nosniff")];
     Written := body_text (msg +:+ newline) |}.

(** [r.Header.Get(key)]: the first value, or the empty string. *)
Definition Header_Get (h : gmap string (list string)) (key : string)
  : string :=
  match h !! key with
  | Some (v :: _) => v
  | _ => ""
  end.

(** [strings.TrimPrefix(s, "/")] *)
Definition trim_slash (s : string) : string :=
  match s with
  | String c rest => if Ascii.eqb c "/" then rest else s
  | EmptyString => s
  end.

(** [strings.Split(s, "/")] *)
Fixpoint split_slash (s : string) : list string :=
  match s with
  | EmptyString => [""]
  | String c rest =>
      if Ascii.eqb c "/" then "" :: split_slash rest
      else
        match split_slash rest with
        | part :: parts => String c part :: parts
        | [] => [String c ""]
        end
  end.

(** The index expression [parts[i]]; it panics when [i] is out of range. *)
Definition index (parts : list string) (i : nat) : go string :=
  match parts !! i with
  | Some part => Done part
  | None => Panicked "index out of range"
  end.

(** What the call to the tool's service comes to: no response at all
    (the request could not be built or sent), or a response whose body
    was copied back, wholly or up to an error. *)
Inductive Downstream :=
| no_response (err : string)
| response (status : Z) (header : list (string * string)) (copied : string)
    (copy_err : error).

Record Gateway := {
  policyEngine : PolicyEngine;
  toolURLs : gmap string string
}.

(** *** NewGateway (gateway.go, lines 26-38) *)
Definition NewGateway (pe : PolicyEngine) : Gateway :=
  {| policyEngine := pe;
     toolURLs := {[ "payments" := "http://localhost:8081";
                    "files" := "http://localhost:8082" ]} |}.

Section Pipeline.

(** [json.Unmarshal(bodyBytes, &params)]; a nil map reads as the empty one *)
Variable json_Unmarshal : string → result (gmap string value).

(** [g.client.Do] on a POST of the body to the URL *)
Variable client_Do : string → string → Downstream.

(** *** forwardRequest and lines 119-128 of HandleRequest

    Once the downstream status has been written, the 500 of line 126
    comes too late to change it; its text is appended to the body. *)
Definition forwardRequest (baseURL action body : string) : Response :=
  match client_Do (baseURL +:+ "/" +:+ action) body with
  | no_response err =>
      http_Error ("Failed to forward request: " +:+ err)
        StatusInternalServerError
  | response status header copied None =>
      {| StatusCode := status; ResponseHeader := header;
         Written := body_text copied |}
  | response status header copied (Some err) =>
      {| StatusCode := status; ResponseHeader := header;
         Written := body_text (copied +:+ "Failed to forward request: "
                                 +:+ err +:+ newline) |}
  end.

(** The test of line 46, [len(pathParts) < 3 || pathParts[0] != "tools"]. *)
Definition invalid_path (pathParts : list string) : go bool :=
  if (length pathParts <? 3)%nat then Done true
  else go_bind (index pathParts 0) (λ first,
         Done (negb (String.eqb first "tools"))).

(** Lines 100-109. *)
Definition policy_violation (reason : string) : Response :=
  {| StatusCode := StatusForbidden;
     ResponseHeader := [("Content-Type", "application/json")];
     Written := body_json {[ "error" := "PolicyViolation";
                             "reason" := reason ]} |}.

(** *** HandleRequest (gateway.go, lines 41-129)

    The response written, and the gateway afterwards.  The telemetry
    calls (the hash of the parameters, the two log records) write to the
    log only and are left out. *)
Definition HandleRequest (g : Gateway) (order : list string) (r : Request)
  : go Response * Gateway :=
  let pathParts := split_slash (trim_slash (URL_Path r)) in
  match invalid_path pathParts with
  | Panicked msg => (Panicked msg, g)
  | Done true =>
      (Done (http_Error "Invalid path. Expected: /tools/:tool/:action"
               StatusBadRequest), g)
  | Done false =>
      match index pathParts 1, index pathParts 2 with
      | Panicked msg, _ => (Panicked msg, g)
      | _, Panicked msg => (Panicked msg, g)
      | Done tool, Done action =>
          let agentID := Header_Get (Header r) "X-Agent-ID" in
          if String.eqb agentID ""
          then (Done (http_Error "Missing X-Agent-ID header"
                        StatusBadRequest), g)
          else
            match Body r with
            | Err err =>
                (Done (http_Error ("Failed to read request body: " +:+ err)
                         StatusBadRequest), g)
            | Ok bodyBytes =>
                match (if (0 <? String.length bodyBytes)%nat
                       then json_Unmarshal bodyBytes
                       else Ok ∅) with
                | Err err =>
                    (Done (http_Error ("Invalid JSON: " +:+ err)
                             StatusBadRequest), g)
                | Ok params =>
                    let '(verdict, pe') :=
                      Evaluate (policyEngine g) order agentID tool action
                        params in
                    let g' := {| policyEngine := pe';
                                 toolURLs := toolURLs g |} in
                    match verdict with
                    | Panicked msg => (Panicked msg, g')
                    | Done (allowed, reason) =>
                        if negb allowed
                        then (Done (policy_violation reason), g')
                        else
                          match toolURLs g !! tool with
                          | None =>
                              (Done (http_Error ("Unknown tool: " +:+ tool)
                                       StatusBadRequest), g')
                          | Some toolURL =>
                              (Done (forwardRequest toolURL action
                                       bodyBytes), g')
                          end
                    end
                end
            end
      end
  end.

End Pipeline.

(** ** Evaluate and a reload running at the same time

    The engine shared by the goroutines of the requests and by the
    watcher.  A step is one access to the shared engine: a mutex
    operation, one iteration of the loop over the map, the assignment of
    line 113.  The mutex grants RLock when no writer is inside, and Lock
    when nobody is inside. *)

Module Concurrent.

Record call := {
  agentID : string;
  tool : string;
  action : string;
  params : gmap string value
}.

(** Where a call of Evaluate stands. *)
Inductive reader :=
| at_RLock
| ranging (todo : list string)
| at_RUnlock (r : go (bool * string))
| returned (r : go (bool * string)).

(** Where the reload (lines 112-114 of loadPolicyFile) stands. *)
Inductive reload :=
| at_Lock
| at_assign
| at_Unlock
| reloaded.

Record state := {
  st_mu : RWMutex;
  st_policies : gmap string Policy;
  st_reload : reload;
  st_calls : list (call * reader)
}.

Definition inside_RLock (r : reader) : bool :=
  match r with
  | ranging _ | at_RUnlock _ => true
  | _ => false
  end.

Section Reload.

(** The reload publishes [policy] under [filePath]. *)
Variable filePath : string.
Variable policy : Policy.

Inductive step : state → state → Prop :=
| step_RLock s i c order :
    st_calls s !! i = Some (c, at_RLock) →
    writer (st_mu s) = false →
    iteration_order (st_policies s) order →
    step s {| st_mu := RLock (st_mu s);
              st_policies := st_policies s;
              st_reload := st_reload s;
              st_calls := <[i := (c, ranging order)]> (st_calls s) |}
| step_range_gone s i c k todo :
    st_calls s !! i = Some (c, ranging (k :: todo)) →
    st_policies s !! k = None →
    step s {| st_mu := st_mu s;
              st_policies := st_policies s;
              st_reload := st_reload s;
              st_calls := <[i := (c, ranging todo)]> (st_calls s) |}
| step_range_continue s i c k todo p :
    st_calls s !! i = Some (c, ranging (k :: todo)) →
    st_policies s !! k = Some p →
    scan_agents (Agents p) (agentID c) (tool c) (action c) (params c) = None →
    step s {| st_mu := st_mu s;
              st_policies := st_policies s;
              st_reload := st_reload s;
              st_calls := <[i := (c, ranging todo)]> (st_calls s) |}
| step_range_return s i c k todo p r :
    st_calls s !! i = Some (c, ranging (k :: todo)) →
    st_policies s !! k = Some p →
    scan_agents (Agents p) (agentID c) (tool c) (action c) (params c)
      = Some r →
    step s {| st_mu := st_mu s;
              st_policies := st_policies s;
              st_reload := st_reload s;
              st_calls := <[i := (c, at_RUnlock r)]> (st_calls s) |}
| step_range_end s i c :
    st_calls s !! i = Some (c, ranging []) →
    step s {| st_mu := st_mu s;
              st_policies := st_policies s;
              st_reload := st_reload s;
              st_calls :=
                <[i := (c, at_RUnlock
                             (Done (false, not_allowed (agentID c) (tool c)
                                             (action c))))]> (st_calls s) |}
| step_RUnlock s i c r :
    st_calls s !! i = Some (c, at_RUnlock r) →
    step s {| st_mu := RUnlock (st_mu s);
              st_policies := st_policies s;
              st_reload := st_reload s;
              st_calls := <[i := (c, returned r)]> (st_calls s) |}
| step_Lock s :
    st_reload s = at_Lock →
    writer (st_mu s) = false →
    readers (st_mu s) = 0 →
    step s {| st_mu := Lock (st_mu s);
              st_policies := st_policies s;
              st_reload := at_assign;
              st_calls := st_calls s |}
| step_assign s :
    st_reload s = at_assign →
    step s {| st_mu := st_mu s;
              st_policies := <[filePath := policy]> (st_policies s);
              st_reload := at_Unlock;
              st_calls := st_calls s |}
| step_Unlock s :
    st_reload s = at_Unlock →
    step s {| st_mu := Unlock (st_mu s);
              st_policies := st_policies s;
              st_reload := reloaded;
              st_calls := st_calls s |}.

(** The calls have not started and the reload has not taken the lock. *)
Definition initial (store : gmap string Policy) (calls : list call) : state :=
  {| st_mu := {| readers := 0; writer := false |};
     st_policies := store;
     st_reload := at_Lock;
     st_calls := (λ c, (c, at_RLock)) <$> calls |}.

Inductive reachable (store : gmap string Policy) (calls : list call)
  : state → Prop :=
| reachable_initial : reachable store calls (initial store calls)
| reachable_step s s' :
    reachable store calls s → step s s' → reachable store calls s'.

End Reload.

End Concurrent.

(** ** Definitions used to state the properties *)

(** Does [needle] occur in [hay]. *)
Fixpoint contains (needle hay : string) : bool :=
  String.prefix needle hay
  || match hay with
     | EmptyString => false
     | String _ rest => contains needle rest
     end.

(** The bound 5000 and the amounts 5000 and 5001 in every numeric type
    the type switches accept. *)
Definition numerals (n : Z) : list value :=
  [VFloat64 (float64_of_int n); VInt n; VInt64 n].

Definition max_amount_cases (bound amount : Z) : list (go error) :=
  maxAmount ← numerals bound;
  a ← numerals amount;
  [checkConditions {[ "max_amount" := maxAmount ]} {[ "amount" := a ]}].


(** *** Evaluate, told as a search for the first matching allowance *)

(** The allowance is for [tool] and its actions contain [action]. *)
Definition grants (tool action : string) (allow : ToolAllowance) : Prop :=
  Tool allow = tool ∧ action ∈ Actions allow.

#[global] Instance grants_dec tool action allow :
  Decision (grants tool action allow).
Proof. unfold grants. apply _. Defined.

(** The allowances of the entries for [agentID], in the order in which
    the policies are visited and in which they stand in each policy. *)
Definition encountered (visited : list Policy) (agentID : string)
  : list ToolAllowance :=
  policy ← visited;
  agentPolicy ← filter (λ a, ID a = agentID) (Agents policy);
  Allow agentPolicy.

(** The first allowance encountered that is for the agent, the tool and
    the action. *)
Definition first_match (visited : list Policy)
    (agentID tool action : string) : option ToolAllowance :=
  head (filter (grants tool action) (encountered visited agentID)).

(** Some stored policy has an allowance for the agent, the tool and the
    action. *)
Definition granted_somewhere (store : gmap string Policy)
    (agentID tool action : string) : Prop :=
  ∃ k policy agentPolicy allow,
    store !! k = Some policy ∧ agentPolicy ∈ Agents policy ∧
    ID agentPolicy = agentID ∧ allow ∈ Allow agentPolicy ∧
    grants tool action allow.

(** *** The policy of the README, and a second document *)

Definition readme_policy : Policy :=
  {| Version := "1";
     Agents :=
       [ {| ID := "finance-agent";
            Allow :=
              [ {| Tool := "payments";
                   Actions := ["create"; "refund"];
                   Conditions :=
                     Some {[ "max_amount" := VInt 5000;
                             "currencies" :=
                               VSlice [VString "USD"; VString "EUR"] ]} |} ] |};
         {| ID := "hr-agent";
            Allow :=
              [ {| Tool := "files";
                   Actions := ["read"];
                   Conditions :=
                     Some {[ "folder_prefix" := VString "/hr-docs/" ]} |} ]
         |} ] |}.

(** A document that lets the finance agent create payments of any
    amount. *)
Definition open_policy : Policy :=
  {| Version := "1";
     Agents :=
       [ {| ID := "finance-agent";
            Allow := [ {| Tool := "payments";
                          Actions := ["create"];
                          Conditions := None |} ] |} ] |}.

Definition example_engine : PolicyEngine :=
  {| mu := {| readers := 0; writer := false |};
     policies := {[ "policies/a.yaml" := readme_policy;
                    "policies/b.yaml" := open_policy ]};
     baseDir := "policies" |}.

(** The request of the demo that is blocked. *)
Definition blocked_params : gmap string value :=
  {[ "amount" := VFloat64 (float64_of_int 50000);
     "currency" := VString "USD";
     "vendor_id" := VString "V99" ]}.

(** *** What a load publishes *)

(** The Policy that loading [filePath] publishes: the file is read, it
    parses, and the parse is valid. *)
Definition publishable (yaml_Unmarshal : string → result Policy)
    (fs : FileSystem) (filePath : string) : option Policy :=
  match os_ReadFile fs filePath with
  | Ok data =>
      match yaml_Unmarshal data with
      | Ok policy =>
          match validatePolicy policy with
          | None => Some policy
          | Some _ => None
          end
      | Err _ => None
      end
  | Err _ => None
  end.

(** The paths of the policy documents among the entries of a directory. *)
Definition documents (filepath_Join : string → string → string)
    (dir : string) (entries : list DirEntry) : list string :=
  (λ entry, filepath_Join dir (entry_Name entry))
    <$> filter (λ entry, skipped entry = false) entries.

(** Every stored Policy passes validatePolicy. *)
Definition store_valid (store : gmap string Policy) : Prop :=
  ∀ k policy, store !! k = Some policy → validatePolicy policy = None.

(** A directory with a good document, a document without a version, a
    document that does not parse, a text file and a subdirectory; and a
    parser that knows these files. *)
Definition example_fs : FileSystem :=
  {| os_ReadDir := λ dir,
       if String.eqb dir "policies"
       then ReadDir_ok [ {| entry_Name := "a.yaml"; entry_IsDir := false |};
                         {| entry_Name := "bad.yml"; entry_IsDir := false |};
                         {| entry_Name := "broken.yaml"; entry_IsDir := false |};
                         {| entry_Name := "notes.txt"; entry_IsDir := false |};
                         {| entry_Name := "old.yaml"; entry_IsDir := true |} ]
       else ReadDir_not_exist "no such file or directory";
     os_ReadFile := λ path,
       if String.eqb path "policies/a.yaml" then Ok "readme"
       else if String.eqb path "policies/bad.yml" then Ok "no version"
       else if String.eqb path "policies/broken.yaml" then Ok "{"
       else if String.eqb path "policies/notes.txt" then Ok "notes"
       else Err "no such file or directory";
     fsnotify_NewWatcher := None;
     fsnotify_Add := λ _, None |}.

(** The same directory after an edit that broke the good document. *)
Definition edited_fs : FileSystem :=
  {| os_ReadDir := os_ReadDir example_fs;
     os_ReadFile := λ path,
       if String.eqb path "policies/a.yaml" then Ok "{"
       else os_ReadFile example_fs path;
     fsnotify_NewWatcher := None;
     fsnotify_Add := λ _, None |}.

Definition example_yaml (data : string) : result Policy :=
  if String.eqb data "readme" then Ok readme_policy
  else if String.eqb data "open" then Ok open_policy
  else if String.eqb data "no version"
  then Ok {| Version := ""; Agents := Agents open_policy |}
  else Err "yaml: did not find expected node content".

Definition example_join (dir name : string) : string :=
  dir +:+ "/" +:+ name.

(** *** Requests of the demo *)

(** The body of the blocked request of the demo, without its quotation
    marks, and a decoder that knows it. *)
Definition blocked_body : string :=
  "{amount:50000,currency:USD,vendor_id:V99}".

Definition example_json (body : string) : result (gmap string value) :=
  if String.eqb body blocked_body then Ok blocked_params
  else Err "invalid character".

Definition example_client (url body : string) : Downstream :=
  response 200 [("Content-Type", "application/json")] "{status:ok}" None.

Definition post (path agent body : string) : Request :=
  {| URL_Path := path;
     Header := {[ "X-Agent-ID" := [agent] ]};
     Body := Ok body |}.

(** *** What holds in every state of a run with a reload *)

Module Invariant.
Import Concurrent.

(** The calls that hold the read lock. *)
Definition inside (calls : list (call * reader)) : nat :=
  length (filter (λ cr, inside_RLock cr.2 = true) calls).

(** Is the reload between its Lock and its Unlock. *)
Definition writing (w : reload) : bool :=
  match w with
  | at_assign | at_Unlock => true
  | at_Lock | reloaded => false
  end.

Section Reload.

Variable filePath : string.
Variable policy : Policy.
(** the store before the reload *)
Variable store : gmap string Policy.

(** The store before the assignment of line 113 and after it. *)
Definition store_at (w : reload) : gmap string Policy :=
  match w with
  | at_Lock | at_assign => store
  | at_Unlock | reloaded => <[filePath := policy]> store
  end.

(** [r] is a result of Evaluate for the call on the store [S]. *)
Definition result_on (S : gmap string Policy) (c : call)
    (r : go (bool * string)) : Prop :=
  ∃ order,
    iteration_order S order ∧
    r = evaluate_locked S order (agentID c) (tool c) (action c) (params c).

(** [r] is a result of Evaluate on the store as it was before the reload
    or on the store as it is after it. *)
Definition sees_one_store (c : call) (r : go (bool * string)) : Prop :=
  result_on store c r ∨ result_on (<[filePath := policy]> store) c r.

(** What is known of a call, given the store as it is now. *)
Definition call_ok (now : gmap string Policy) (cr : call * reader) : Prop :=
  match cr.2 with
  | at_RLock => True
  | ranging todo =>
      ∃ order,
        iteration_order now order ∧
        scan_policies (range_policies now order)
          (agentID cr.1) (tool cr.1) (action cr.1) (params cr.1)
        = scan_policies (range_policies now todo)
            (agentID cr.1) (tool cr.1) (action cr.1) (params cr.1)
  | at_RUnlock r => result_on now cr.1 r
  | returned r => sees_one_store cr.1 r
  end.

Record invariant (s : state) : Prop := {
  inv_store : st_policies s = store_at (st_reload s);
  inv_readers : readers (st_mu s) = inside (st_calls s);
  inv_writer : writer (st_mu s) = writing (st_reload s);
  inv_exclusion : writing (st_reload s) = true → inside (st_calls s) = 0;
  inv_calls : Forall (call_ok (st_policies s)) (st_calls s)
}.

End Reload.

End Invariant.

(** A call of the finance agent, and the run in which it evaluates on
    its own while a reload of a second document waits. *)
Definition finance_call : Concurrent.call :=
  {| Concurrent.agentID := "finance-agent";
     Concurrent.tool := "payments";
     Concurrent.action := "create";
     Concurrent.params := blocked_params |}.

Definition readme_store : gmap string Policy :=
  {[ "policies/a.yaml" := readme_policy ]}.

(** Extend a run by the step that [take] builds from the state reached. *)
Ltac run_step H take H' :=
  lazymatch type of H with
  | Concurrent.reachable _ _ _ _ ?s =>
      let st := take s in
      pose proof (Concurrent.reachable_step _ _ _ _ s _ H st) as H'
  end.


(** ** Further definitions *)

(** The three numeric shapes in which a policy or a caller can give the
    integer [n]. *)
Definition is_integer (v : value) (n : Z) : Prop :=
  v = VInt n ∨ v = VInt64 n ∨ v = VFloat64 (float64_of_int n).

(** The structure validatePolicy asks for: a version, and for every
    agent an ID and allowances that each name a tool and at least one
    action. *)
Definition well_formed (p : Policy) : Prop :=
  Version p ≠ "" ∧
  Forall (λ agent,
            ID agent ≠ "" ∧
            Forall (λ allow, Tool allow ≠ "" ∧ Actions allow ≠ [])
              (Allow agent))
    (Agents p).

(** The document with the conditions of every allowance replaced. *)
Definition map_conditions
    (f : ToolAllowance → option (gmap string value)) (p : Policy) : Policy :=
  {| Version := Version p;
     Agents :=
       (λ agent,
          {| ID := ID agent;
             Allow :=
               (λ allow, {| Tool := Tool allow;
                            Actions := Actions allow;
                            Conditions := f allow |}) <$> Allow agent |})
         <$> Agents p |}.

(** Is a channel closed among the deliveries. *)
Definition closes (d : delivery) : bool :=
  match d with
  | on_Events_closed | on_Errors_closed => true
  | _ => false
  end.

(** A service that cannot be reached. *)
Definition unreachable_client (url body : string) : Downstream :=
  no_response "connection refused".

(** Has the call of Evaluate returned. *)
Definition has_returned (r : Concurrent.reader) : bool :=
  match r with
  | Concurrent.returned _ => true
  | _ => false
  end.

(** A document whose [currencies] is one currency instead of a list and
    whose [folder_prefix] is a number, and the engine that holds it. *)
Definition mistyped_policy : Policy :=
  {| Version := "1";
     Agents :=
       [ {| ID := "finance-agent";
            Allow :=
              [ {| Tool := "payments";
                   Actions := ["create"];
                   Conditions :=
                     Some {[ "currencies" := VString "USD" ]} |} ] |};
         {| ID := "hr-agent";
            Allow :=
              [ {| Tool := "files";
                   Actions := ["read"];
                   Conditions :=
                     Some {[ "folder_prefix" := VInt 7 ]} |} ] |} ] |}.

Definition mistyped_engine : PolicyEngine :=
  {| mu := {| readers := 0; writer := false |};
     policies := {[ "policies/m.yaml" := mistyped_policy ]};
     baseDir := "policies" |}.

(** ** Telemetry (package telemetry) and its calls in HandleRequest *)

(** The audit record, with the names of its JSON fields in the source;
    the field [decision.allow] is the text "true" or "false". *)
Record DecisionLog := {
  Timestamp : string;
  AgentID : string;
  ToolName : string;
  ToolAction : string;
  DecisionAllow : string;
  Reason : string;
  PolicyVersion : string;
  ParamsHash : string;
  LatencyMS : Z;
  TraceID : string;
  SpanID : string
}.

(** What the telemetry puts out: a span with its attributes, or a line
    of the audit log (the same line goes to the log file and to the
    standard output). *)
Inductive telemetry_record :=
| span_evaluate (agentID tool action : string) (allowed : bool)
    (paramsHash : string) (latencyMS : Z)
| log_line (entry : DecisionLog)
| span_forward (tool action : string) (latencyMS : Z).

(** What the clock and the tracer give during one request. *)
Record Measured := {
  measured_now : string;
  measured_latency : Z;
  measured_forward_latency : Z;
  measured_trace_id : string;
  measured_span_id : string
}.

Section Telemetry.

(** [json.Marshal] of the parameters; [None] is the nil map, which
    encoding/json writes as [null] *)
Variable json_Marshal : option (gmap string value) → result string.

(** [hex.EncodeToString] of [sha256.Sum256] *)
Variable sha256_hex : string → string.

(** *** HashParams *)
Definition HashParams (params : option (gmap string value)) : string :=
  match json_Marshal params with
  | Err _ => "hash_error"
  | Ok data => sha256_hex data
  end.

(** *** LogDecision: the span, then the line of the log. *)
Definition LogDecision (m : Measured) (agentID tool action : string)
    (allowed : bool) (reason paramsHash : string) (latencyMS : Z)
  : list telemetry_record :=
  let decisionStr := if allowed then "true" else "false" in
  let logEntry :=
    {| Timestamp := measured_now m;
       AgentID := agentID;
       ToolName := tool;
       ToolAction := action;
       DecisionAllow := decisionStr;
       Reason := reason;
       PolicyVersion := "";
       ParamsHash := paramsHash;
       LatencyMS := latencyMS;
       TraceID := measured_trace_id m;
       SpanID := measured_span_id m |} in
  [span_evaluate agentID tool action allowed paramsHash latencyMS;
   log_line logEntry].

(** *** LogForwardedCall *)
Definition LogForwardedCall (tool action : string) (latencyMS : Z)
  : list telemetry_record :=
  [span_forward tool action latencyMS].

(** [json.Unmarshal(bodyBytes, &params)] into the nil map of line 69:
    the JSON [null] leaves [params] nil, an object makes a map *)
Variable json_Unmarshal : string → result (option (gmap string value)).

(** Lines 68-77: the parameters of the request. *)
Definition request_params (bodyBytes : string)
  : result (option (gmap string value)) :=
  if (0 <? String.length bodyBytes)%nat then json_Unmarshal bodyBytes
  else Ok (Some ∅).


(** *** The telemetry of HandleRequest (gateway.go, lines 41-129): what
    one request puts out, along the same path through the handler as
    the response. *)
Definition HandleRequest_telemetry (m : Measured) (g : Gateway)
    (order : list string) (r : Request) : list telemetry_record :=
  let pathParts := split_slash (trim_slash (URL_Path r)) in
  match invalid_path pathParts with
  | Panicked _ => []
  | Done true => []
  | Done false =>
      match index pathParts 1, index pathParts 2 with
      | Panicked _, _ => []
      | _, Panicked _ => []
      | Done tool, Done action =>
          let agentID := Header_Get (Header r) "X-Agent-ID" in
          if String.eqb agentID "" then []
          else
            match Body r with
            | Err _ => []
            | Ok bodyBytes =>
                match request_params bodyBytes with
                | Err _ => []
                | Ok params =>
                    let paramsHash := HashParams params in
                    match fst (Evaluate (policyEngine g) order agentID tool
                                 action (default ∅ params)) with
                    | Panicked _ => []
                    | Done (allowed, reason) =>
                        let decision :=
                          LogDecision m agentID tool action allowed reason
                            paramsHash (measured_latency m) in
                        if negb allowed then decision
                        else
                          match toolURLs g !! tool with
                          | None => decision
                          | Some _ =>
                              decision ++
                              LogForwardedCall tool action
                                (measured_forward_latency m)
                          end
                    end
                end
            end
      end
  end.

End Telemetry.

(** The records that are lines of the log. *)
Definition log_lines (records : list telemetry_record) : list DecisionLog :=
  omap (λ record, match record with
                  | log_line entry => Some entry
                  | _ => None
                  end) records.

Definition example_measured : Measured :=
  {| measured_now := "2025-01-01T00:00:00Z";
     measured_latency := 1;
     measured_forward_latency := 2;
     measured_trace_id := "4bf92f3577b34da6a3ce929d0e0e4736";
     measured_span_id := "00f067aa0ba902b7" |}.

(** A decoder that knows the body [null] and the blocked request of the
    demo, and an encoder and a hash that know what they decode to. *)
Definition example_json_or_nil (body : string)
  : result (option (gmap string value)) :=
  if String.eqb body "null" then Ok None
  else match example_json body with
       | Ok params => Ok (Some params)
       | Err err => Err err
       end.

Definition example_marshal (params : option (gmap string value))
  : result string :=
  match params with
  | None => Ok "null"
  | Some entries =>
      match entries !! "amount" with
      | None => Ok "{}"
      | Some _ => Ok blocked_body
      end
  end.

Definition example_sha256 (data : string) : string :=
  if String.eqb data "null"
  then "74234e98afe7498fb5daf1f36ac2d78acc339464f950703b8c019892f982b90b"
  else if String.eqb data "{}"
  then "44136fa355b3678a1146ad16f7e8649e94fb4fc21fe77e8310c060f61caaff8a"
  else "c537f363ad15ac4f4ddedc4cd5a95244d1326fd201853690d4c518de70ccbd60".

(** ** Evaluate on the engine as it lies in memory

    [pe.policies] is a [map[string]*Policy]: Evaluate and checkConditions
    work on the stored documents themselves, through the pointers of the
    map and through the map headers of the conditions and of the
    parameters, not on copies.  Here every statement of the two functions
    that touches the engine, a stored Policy, a conditions map or the
    parameters is an operation on a memory that it could also write. *)

Module Memory.

(** The address of an object. *)
Definition address := positive.

(** A ToolAllowance, an AgentPolicy and a Policy as they are stored: the
    field [Conditions] is a map header, nil or the address of the map. *)
Record stored_allowance := {
  stored_Tool : string;
  stored_Actions : list string;
  stored_Conditions : option address
}.

Record stored_agent := {
  stored_ID : string;
  stored_Allow : list stored_allowance
}.

Record stored_policy := {
  stored_Version : string;
  stored_Agents : list stored_agent
}.

Record memory := {
  (** the fields of the engine *)
  mem_mu : RWMutex;
  mem_policies : gmap string address;
  mem_baseDir : string;
  (** the Policy objects *)
  mem_objects : gmap address stored_policy;
  (** the [map[string]interface{}] objects: conditions and parameters *)
  mem_maps : gmap address (gmap string value)
}.

(** A piece of Go code running on the memory: it returns or panics, and
    leaves the memory as it has made it. *)
Definition M (A : Type) : Type := memory → go A * memory.

Definition ret {A} (a : A) : M A := λ m, (Done a, m).

Definition bind {A B} (c : M A) (k : A → M B) : M B :=
  λ m, match c m with
       | (Done a, m') => k a m'
       | (Panicked msg, m') => (Panicked msg, m')
       end.

#[local] Notation "'let*' x ':=' c 'in' k" := (bind c (λ x, k))
  (at level 10, x name, c at level 100, k at level 200).

(** [defer after]: [after] runs when the body is left, by a return or by
    a panic. *)
Definition defer {A} (after : M unit) (body : M A) : M A :=
  λ m, let '(r, m') := body m in (r, snd (after m')).

(** The operations on [pe.mu]. *)
Definition on_mu (f : RWMutex → RWMutex) : M unit :=
  λ m, (Done tt,
        {| mem_mu := f (mem_mu m); mem_policies := mem_policies m;
           mem_baseDir := mem_baseDir m; mem_objects := mem_objects m;
           mem_maps := mem_maps m |}).

(** [range pe.policies]: the pointers, in the order of the iteration. *)
Definition range_policies (order : list string) : M (list address) :=
  λ m, (Done (omap (λ k, mem_policies m !! k) order), m).

(** [policy.Agents], through the pointer; a pointer to no Policy is the
    nil pointer. *)
Definition load_Agents (policy : address) : M (list stored_agent) :=
  λ m, match mem_objects m !! policy with
       | Some object => (Done (stored_Agents object), m)
       | None =>
           (Panicked "invalid memory address or nil pointer dereference", m)
       end.

(** The index expression [v, ok := h[key]] on a map header; the nil map
    has no keys. *)
Definition map_index (h : option address) (key : string)
  : M (option value) :=
  λ m, (Done match h with
             | Some a =>
                 match mem_maps m !! a with
                 | Some entries => entries !! key
                 | None => None
                 end
             | None => None
             end, m).

(** [pe.policies[key] = policy] *)
Definition map_assign (key : string) (policy : address) : M unit :=
  λ m, (Done tt,
        {| mem_mu := mem_mu m;
           mem_policies := <[key := policy]> (mem_policies m);
           mem_baseDir := mem_baseDir m; mem_objects := mem_objects m;
           mem_maps := mem_maps m |}).

(** [delete(pe.policies, key)] *)
Definition map_delete (key : string) : M unit :=
  λ m, (Done tt,
        {| mem_mu := mem_mu m;
           mem_policies := delete key (mem_policies m);
           mem_baseDir := mem_baseDir m; mem_objects := mem_objects m;
           mem_maps := mem_maps m |}).

(** A panic of the code itself. *)
Definition run {A} (r : go A) : M A := λ m, (r, m).

(** *** checkConditions (policy.go, lines 224-295) *)

(** Lines 226-256. *)
Definition check_max_amount (conditions params : option address) : M error :=
  let* maxAmount := map_index conditions "max_amount" in
  match maxAmount with
  | Some maxAmount =>
      let* amount := map_index params "amount" in
      match amount with
      | Some amount =>
          match as_float64 amount with
          | None => ret (Some "amount must be a number")
          | Some amountFloat =>
              match as_float64 maxAmount with
              | None => ret (Some "max_amount must be a number")
              | Some maxFloat =>
                  if float64_gt amountFloat maxFloat
                  then ret (Some ("Amount exceeds max_amount="
                                    +:+ fmt_f0 maxFloat))
                  else ret None
              end
          end
      | None => ret None
      end
  | None => ret None
  end.

(** Lines 259-278. *)
Definition check_currencies (conditions params : option address) : M error :=
  let* configured := map_index conditions "currencies" in
  match configured with
  | Some (VSlice currencies) =>
      let* currency := map_index params "currency" in
      match currency with
      | Some (VString currencyStr) =>
          if currency_allowed currencies currencyStr then ret None
          else ret (Some ("Currency " +:+ currencyStr
                            +:+ " not in allowed currencies"))
      | Some _ => ret (Some "currency must be a string")
      | None => ret None
      end
  | _ => ret None
  end.

(** Lines 281-292. *)
Definition check_folder_prefix (conditions params : option address)
  : M error :=
  let* configured := map_index conditions "folder_prefix" in
  match configured with
  | Some (VString prefix) =>
      let* path := map_index params "path" in
      match path with
      | Some (VString pathStr) =>
          if (String.length pathStr <? String.length prefix)%nat
          then ret (Some ("Path must start with prefix " +:+ prefix))
          else
            let* head := run (slice_to pathStr (String.length prefix)) in
            if negb (String.eqb head prefix)
            then ret (Some ("Path must start with prefix " +:+ prefix))
            else ret None
      | Some _ => ret (Some "path must be a string")
      | None => ret None
      end
  | _ => ret None
  end.

Definition checkConditions (conditions params : option address) : M error :=
  let* err := check_max_amount conditions params in
  match err with
  | Some reason => ret (Some reason)
  | None =>
      let* err := check_currencies conditions params in
      match err with
      | Some reason => ret (Some reason)
      | None => check_folder_prefix conditions params
      end
  end.

(** *** Evaluate (policy.go, lines 179-221) *)

(** Lines 208-215. *)
Definition verdict (allow : stored_allowance) (params : option address)
  : M (bool * string) :=
  match stored_Conditions allow with
  | Some conditions =>
      let* err := checkConditions (Some conditions) params in
      match err with
      | Some reason => ret (false, reason)
      | None => ret (true, "")
      end
  | None => ret (true, "")
  end.

(** The loop of lines 190-216 over the allowances of the entry;
    [Some r] when the function returns [r] from inside the loop. *)
Fixpoint scan_allow (allows : list stored_allowance) (tool action : string)
    (params : option address) : M (option (bool * string)) :=
  match allows with
  | [] => ret None
  | allow :: rest =>
      if negb (String.eqb (stored_Tool allow) tool)
      then scan_allow rest tool action params
      else if negb (action_allowed (stored_Actions allow) action)
      then scan_allow rest tool action params
      else let* r := verdict allow params in ret (Some r)
  end.

(** The loop of lines 185-217. *)
Fixpoint scan_agents (agents : list stored_agent)
    (agentID tool action : string) (params : option address)
  : M (option (bool * string)) :=
  match agents with
  | [] => ret None
  | agentPolicy :: rest =>
      if negb (String.eqb (stored_ID agentPolicy) agentID)
      then scan_agents rest agentID tool action params
      else
        let* found := scan_allow (stored_Allow agentPolicy) tool action
                        params in
        match found with
        | Some r => ret (Some r)
        | None => scan_agents rest agentID tool action params
        end
  end.

(** The loop of lines 184-218 over the pointers the iteration yields. *)
Fixpoint scan_policies (visited : list address)
    (agentID tool action : string) (params : option address)
  : M (option (bool * string)) :=
  match visited with
  | [] => ret None
  | policy :: rest =>
      let* agents := load_Agents policy in
      let* found := scan_agents agents agentID tool action params in
      match found with
      | Some r => ret (Some r)
      | None => scan_policies rest agentID tool action params
      end
  end.

Definition Evaluate (order : list string) (agentID tool action : string)
    (params : option address) : M (bool * string) :=
  let* _ := on_mu RLock in
  defer (on_mu RUnlock)
    (let* visited := range_policies order in
     let* found := scan_policies visited agentID tool action params in
     match found with
     | Some r => ret r
     | None => ret (false, not_allowed agentID tool action)
     end).

(** *** The statements that write the store *)

(** Lines 112-114 of loadPolicyFile; [policy] is the address of the
    document just decoded. *)
Definition publish (filePath : string) (policy : address) : M unit :=
  let* _ := on_mu Lock in
  let* _ := map_assign filePath policy in
  on_mu Unlock.

(** Lines 163-165 of watchForChanges. *)
Definition remove (name : string) : M unit :=
  let* _ := on_mu Lock in
  let* _ := map_delete name in
  on_mu Unlock.

(** *** What the memory holds, as values *)

(** The map behind a header. *)
Definition map_at (m : memory) (h : option address) : gmap string value :=
  match h with
  | Some a => default ∅ (mem_maps m !! a)
  | None => ∅
  end.

Definition allowance_at (m : memory) (allow : stored_allowance)
  : ToolAllowance :=
  {| Tool := stored_Tool allow;
     Actions := stored_Actions allow;
     Conditions := (λ a, map_at m (Some a)) <$> stored_Conditions allow |}.

Definition agent_at (m : memory) (agent : stored_agent) : AgentPolicy :=
  {| ID := stored_ID agent;
     Allow := allowance_at m <$> stored_Allow agent |}.

Definition policy_at (m : memory) (object : stored_policy) : Policy :=
  {| Version := stored_Version object;
     Agents := agent_at m <$> stored_Agents object |}.

(** The store: under each key the Policy its pointer leads to. *)
Definition store_of (m : memory) : gmap string Policy :=
  omap (λ a, policy_at m <$> mem_objects m !! a) (mem_policies m).

Definition engine_of (m : memory) : PolicyEngine :=
  {| mu := mem_mu m; policies := store_of m; baseDir := mem_baseDir m |}.

(** No pointer of the map is nil or dangling. *)
Definition allocated (m : memory) : Prop :=
  ∀ k a, mem_policies m !! k = Some a → is_Some (mem_objects m !! a).

End Memory.

(** What a loop that may return from inside comes to: it ran to its end,
    it returned, or it panicked. *)
Definition outcome {A} (found : option (go A)) : go (option A) :=
  match found with
  | None => Done None
  | Some (Done r) => Done (Some r)
  | Some (Panicked msg) => Panicked msg
  end.

(** The README's policy and the blocked request of the demo, in memory. *)
Definition example_memory : Memory.memory :=
  {| Memory.mem_mu := {| readers := 0; writer := false |};
     Memory.mem_policies := {[ "policies/a.yaml" := 1%positive ]};
     Memory.mem_baseDir := "policies";
     Memory.mem_objects :=
       {[ 1%positive :=
            {| Memory.stored_Version := "1";
               Memory.stored_Agents :=
                 [ {| Memory.stored_ID := "finance-agent";
                      Memory.stored_Allow :=
                        [ {| Memory.stored_Tool := "payments";
                             Memory.stored_Actions := ["create"; "refund"];
                             Memory.stored_Conditions := Some 2%positive |} ]
                   |};
                   {| Memory.stored_ID := "hr-agent";
                      Memory.stored_Allow :=
                        [ {| Memory.stored_Tool := "files";
                             Memory.stored_Actions := ["read"];
                             Memory.stored_Conditions := Some 3%positive |} ]
                   |} ] |};
          5%positive :=
            {| Memory.stored_Version := "1";
               Memory.stored_Agents :=
                 [ {| Memory.stored_ID := "finance-agent";
                      Memory.stored_Allow :=
                        [ {| Memory.stored_Tool := "payments";
                             Memory.stored_Actions := ["create"];
                             Memory.stored_Conditions := None |} ] |} ] |} ]};
     Memory.mem_maps :=
       {[ 2%positive := {[ "max_amount" := VInt 5000;
                           "currencies" :=
                             VSlice [VString "USD"; VString "EUR"] ]};
          3%positive := {[ "folder_prefix" := VString "/hr-docs/" ]};
          4%positive := blocked_params ]} |}.

(** * Properties *)

(** ** The condition checks *)

(** The slice of line 288 is taken inside the bounds. *)
Lemma slice_to_in_bounds s n :
  (n <= String.length s)%nat → slice_to s n = Done (String.substring 0 n s).
Proof.
  intros Hn. unfold slice_to.
  destruct (Nat.leb_spec n (String.length s)); [reflexivity | lia].
Qed.

Lemma check_max_amount_returns conditions params :
  ∃ err, check_max_amount conditions params = Done err.
Proof.
  unfold check_max_amount.
  destruct (conditions !! "max_amount") as [maxAmount|]; [|by eexists].
  destruct (params !! "amount") as [amount|]; [|by eexists].
  destruct (as_float64 amount) as [a|]; [|by eexists].
  destruct (as_float64 maxAmount) as [b|]; [|by eexists].
  destruct (float64_gt a b); by eexists.
Qed.

Lemma check_currencies_returns conditions params :
  ∃ err, check_currencies conditions params = Done err.
Proof.
  unfold check_currencies.
  destruct (conditions !! "currencies") as [[]|]; try by eexists.
  destruct (params !! "currency") as [[]|]; try by eexists.
  destruct (currency_allowed _ _); by eexists.
Qed.

Lemma check_folder_prefix_returns conditions params :
  ∃ err, check_folder_prefix conditions params = Done err.
Proof.
  unfold check_folder_prefix.
  destruct (conditions !! "folder_prefix") as [[]|]; try by eexists.
  destruct (params !! "path") as [[]|]; try by eexists.
  match goal with |- context [(?a <? ?b)%nat] =>
    destruct (Nat.ltb_spec a b) end; [by eexists|].
  rewrite slice_to_in_bounds by lia. simpl.
  destruct (negb _); by eexists.
Qed.

Lemma checkConditions_returns conditions params :
  ∃ err, checkConditions conditions params = Done err.
Proof.
  unfold checkConditions, and_then.
  destruct (check_max_amount_returns conditions params) as [[r|] ->];
    simpl; [by eexists|].
  destruct (check_currencies_returns conditions params) as [[r|] ->];
    simpl; [by eexists|].
  apply check_folder_prefix_returns.
Qed.

(** A check reads its own key of the conditions only. *)
Lemma check_max_amount_delete k conditions params :
  k ≠ "max_amount" →
  check_max_amount (delete k conditions) params
  = check_max_amount conditions params.
Proof.
  intros Hk. unfold check_max_amount. by rewrite lookup_delete_ne.
Qed.

Lemma check_currencies_delete k conditions params :
  k ≠ "currencies" →
  check_currencies (delete k conditions) params
  = check_currencies conditions params.
Proof.
  intros Hk. unfold check_currencies. by rewrite lookup_delete_ne.
Qed.

Lemma check_folder_prefix_delete k conditions params :
  k ≠ "folder_prefix" →
  check_folder_prefix (delete k conditions) params
  = check_folder_prefix conditions params.
Proof.
  intros Hk. unfold check_folder_prefix. by rewrite lookup_delete_ne.
Qed.

Lemma check_max_amount_absent conditions params :
  params !! "amount" = None ∨ conditions !! "max_amount" = None →
  check_max_amount conditions params = Done None.
Proof.
  unfold check_max_amount. intros [-> | ->]; [|done].
  by destruct (conditions !! "max_amount").
Qed.

Lemma check_currencies_absent conditions params :
  params !! "currency" = None ∨ conditions !! "currencies" = None →
  check_currencies conditions params = Done None.
Proof.
  unfold check_currencies. intros [-> | ->]; [|done].
  by destruct (conditions !! "currencies") as [[]|].
Qed.

Lemma check_folder_prefix_absent conditions params :
  params !! "path" = None ∨ conditions !! "folder_prefix" = None →
  check_folder_prefix conditions params = Done None.
Proof.
  unfold check_folder_prefix. intros [-> | ->]; [|done].
  by destruct (conditions !! "folder_prefix") as [[]|].
Qed.

(** C2. A condition is checked only when its request parameter is
    present.  When [amount] is absent the result of checkConditions is
    the one it has with the [max_amount] condition taken out, and likewise
    for [currency] with [currencies] and [path] with [folder_prefix]; the
    check of that kind returns no error.  When all three parameters are
    absent no condition fails, whatever the conditions are. *)
Theorem checkConditions_absent_parameter
    (conditions params : gmap string value) :
  (params !! "amount" = None →
     check_max_amount conditions params = Done None ∧
     checkConditions conditions params
     = checkConditions (delete "max_amount" conditions) params) ∧
  (params !! "currency" = None →
     check_currencies conditions params = Done None ∧
     checkConditions conditions params
     = checkConditions (delete "currencies" conditions) params) ∧
  (params !! "path" = None →
     check_folder_prefix conditions params = Done None ∧
     checkConditions conditions params
     = checkConditions (delete "folder_prefix" conditions) params) ∧
  (params !! "amount" = None → params !! "currency" = None →
   params !! "path" = None →
     checkConditions conditions params = Done None).
Proof.
  repeat split.
  - by apply check_max_amount_absent; left.
  - unfold checkConditions.
    rewrite check_currencies_delete, check_folder_prefix_delete by done.
    rewrite (check_max_amount_absent conditions) by (by left).
    by rewrite check_max_amount_absent by (right; apply lookup_delete_eq).
  - by apply check_currencies_absent; left.
  - unfold checkConditions.
    rewrite check_max_amount_delete, check_folder_prefix_delete by done.
    rewrite (check_currencies_absent conditions) by (by left).
    by rewrite check_currencies_absent by (right; apply lookup_delete_eq).
  - by apply check_folder_prefix_absent; left.
  - unfold checkConditions.
    rewrite check_max_amount_delete, check_currencies_delete by done.
    rewrite (check_folder_prefix_absent conditions) by (by left).
    by rewrite check_folder_prefix_absent by (right; apply lookup_delete_eq).
  - intros Ha Hc Hp. unfold checkConditions.
    rewrite check_max_amount_absent, check_currencies_absent,
      check_folder_prefix_absent by (by left).
    reflexivity.
Qed.

(** The policy of the README and a request with no [currency]. *)
Lemma checkConditions_absent_parameter_witness :
  let conditions : gmap string value :=
    {[ "max_amount" := VInt 5000;
       "currencies" := VSlice [VString "USD"; VString "EUR"] ]} in
  let params : gmap string value :=
    {[ "amount" := VFloat64 (float64_of_int 3000) ]} in
  params !! "currency" = None ∧
  check_currencies conditions params = Done None ∧
  checkConditions conditions params
  = checkConditions (delete "currencies" conditions) params.
Proof.
  intros conditions params.
  assert (Hc : params !! "currency" = None) by reflexivity.
  split; [exact Hc|].
  exact (proj1 (proj2 (checkConditions_absent_parameter conditions params))
           Hc).
Defined.

(** ** max_amount *)

(** Comparing the other way round gives the opposite answer. *)
Lemma SFcompare_antisym (x y : float64) :
  SFcompare y x = CompOpp <$> SFcompare x y.
Proof.
  destruct x as [sx|sx| |sx mx ex], y as [sy|sy| |sy my ey]; simpl;
    try reflexivity;
    try (destruct sx; reflexivity); try (destruct sy; reflexivity);
    try (destruct sx, sy; reflexivity).
  destruct sx, sy; simpl; try reflexivity;
    rewrite (Z.compare_antisym ex ey);
    destruct (ex ?= ey)%Z; simpl; try reflexivity;
    change (PosDef.Pos.compare_cont Eq my mx)
      with (Pos.compare_cont (CompOpp Eq) my mx);
    rewrite <- (Pos.compare_cont_antisym mx my Eq);
    rewrite ?CompOpp_involutive; reflexivity.
Qed.

(** [a <= b] excludes [a > b]. *)
Lemma float64_le_not_gt (a b : float64) :
  float64_le a b = true → float64_gt a b = false.
Proof.
  unfold float64_le, float64_gt, SFleb, SFltb.
  rewrite (SFcompare_antisym a b).
  destruct (SFcompare a b) as [[]|]; simpl; congruence.
Qed.

(** *** Integers as float64 *)

Lemma digits2_pos_bounds (p : positive) :
  (2 ^ (Z.pos (digits2_pos p) - 1) <= Z.pos p < 2 ^ Z.pos (digits2_pos p))%Z.
Proof.
  induction p as [p IH|p IH|]; simpl digits2_pos.
  - rewrite Pos2Z.inj_succ.
    replace (Z.succ (Z.pos (digits2_pos p)) - 1)%Z
      with (Z.succ (Z.pos (digits2_pos p) - 1))%Z by lia.
    rewrite !Z.pow_succ_r by lia. lia.
  - rewrite Pos2Z.inj_succ.
    replace (Z.succ (Z.pos (digits2_pos p)) - 1)%Z
      with (Z.succ (Z.pos (digits2_pos p) - 1))%Z by lia.
    rewrite !Z.pow_succ_r by lia. lia.
  - simpl. lia.
Qed.

Lemma digits2_pos_shift (p k : positive) :
  digits2_pos (Pos.iter xO p k) = (digits2_pos p + k)%positive.
Proof.
  induction k as [|k IH] using Pos.peano_ind.
  - simpl. lia.
  - rewrite Pos.iter_succ. simpl. rewrite IH. lia.
Qed.

Lemma shift_value (p k : positive) :
  Z.pos (Pos.iter xO p k) = (Z.pos p * 2 ^ Z.pos k)%Z.
Proof.
  induction k as [|k IH] using Pos.peano_ind.
  - simpl. lia.
  - rewrite Pos.iter_succ, Pos2Z.inj_succ, Z.pow_succ_r by lia.
    rewrite Pos2Z.inj_xO, IH. lia.
Qed.

(** A mantissa of 53 digits with an exponent in range is not rounded. *)
Lemma binary_round_aux_exact (s : bool) (m : positive) (e : Z) :
  Z.pos (digits2_pos m) = 53%Z → (-1074 <= e <= 971)%Z →
  binary_round_aux 53 1024 s (Z.pos m) e loc_Exact = S754_finite s m e.
Proof.
  intros Hm He.
  assert (Hfexp : ((53 + e - 53) `max` (3 - 1024 - 53) - e = 0)%Z) by lia.
  unfold binary_round_aux, shr_fexp, fexp, emin.
  cbn [Zdigits2 shr_record_of_loc]. rewrite Hm, Hfexp.
  cbn [shr shr_m loc_of_shr_record round_nearest_even Zdigits2].
  rewrite Hm, Hfexp. cbn [shr shr_m].
  destruct (Z.leb_spec e (1024 - 53)); [reflexivity | lia].
Qed.

(** An integer below 2^53 converts to the float64 of the same value. *)
Lemma binary_round_exact (s : bool) (p : positive) :
  (Z.pos p < 2 ^ 53)%Z →
  ∃ m e, binary_round 53 1024 s p 0 = S754_finite s m e ∧
         (e <= 0)%Z ∧ Z.pos m = (Z.pos p * 2 ^ (- e))%Z.
Proof.
  intros Hp.
  pose proof (digits2_pos_bounds p) as [Hlo Hhi].
  assert (Hd : (Z.pos (digits2_pos p) <= 53)%Z).
  { destruct (Z.le_gt_cases (Z.pos (digits2_pos p)) 53) as [|Hgt]; [done|].
    assert (2 ^ 53 <= 2 ^ (Z.pos (digits2_pos p) - 1))%Z
      by (apply Z.pow_le_mono_r; lia).
    lia. }
  unfold binary_round, shl_align, fexp, emin.
  rewrite Z.add_0_r, Z.sub_0_r.
  rewrite Z.max_l by lia.
  destruct (Z.pos (digits2_pos p) - 53)%Z as [|q|q] eqn:Hq; [| lia |].
  - exists p, 0%Z. rewrite binary_round_aux_exact by lia.
    split; [reflexivity|]. split; [lia|]. simpl. lia.
  - exists (Pos.iter xO p q), (Z.neg q).
    rewrite binary_round_aux_exact; [| rewrite digits2_pos_shift; lia | lia].
    split; [reflexivity|]. split; [lia|].
    rewrite shift_value. reflexivity.
Qed.

Lemma round_half_even_exact (m : positive) (e n : Z) :
  (e <= 0)%Z → (0 < n)%Z → Z.pos m = (n * 2 ^ (- e))%Z →
  round_half_even m e = n.
Proof.
  intros He Hn Hm. unfold round_half_even.
  destruct (Z.leb_spec 0 e).
  - assert (e = 0)%Z as -> by lia. simpl in *. lia.
  - cbv zeta. rewrite Hm.
    assert (0 < 2 ^ (- e))%Z by (apply Z.pow_pos_nonneg; lia).
    rewrite Z.div_mul, Z.mod_mul by lia.
    destruct (Z.compare_spec (2 * 0) (2 ^ (- e))); lia. 
Qed.

Lemma fmt_f0_integer (n : Z) :
  (Z.abs n < 2 ^ 53)%Z → fmt_f0 (float64_of_int n) = pretty n.
Proof.
  intros Hn. destruct n as [|p|p]; unfold float64_of_int; simpl.
  - reflexivity.
  - destruct (binary_round_exact false p) as (m & e & -> & He & Hm); [lia|].
    unfold fmt_f0. by rewrite (round_half_even_exact m e (Z.pos p)) by lia.
  - destruct (binary_round_exact true p) as (m & e & -> & He & Hm); [lia|].
    unfold fmt_f0. by rewrite (round_half_even_exact m e (Z.pos p)) by lia.
Qed.

(** What the max_amount check returns when both sides are numbers. *)
Lemma check_max_amount_numeric conditions params maxAmount amount A B :
  conditions !! "max_amount" = Some maxAmount →
  params !! "amount" = Some amount →
  as_float64 amount = Some A →
  as_float64 maxAmount = Some B →
  check_max_amount conditions params
  = if float64_gt A B
    then Done (Some ("Amount exceeds max_amount=" +:+ fmt_f0 B))
    else Done None.
Proof.
  intros Hc Hp HA HB. unfold check_max_amount.
  by rewrite Hc, Hp, HA, HB.
Qed.

(** An error of the max_amount check is the error of checkConditions. *)
Lemma max_amount_error_is_returned conditions params reason :
  check_max_amount conditions params = Done (Some reason) →
  checkConditions conditions params = Done (Some reason).
Proof. unfold checkConditions, and_then. by intros ->. Qed.

(** C3, as amended.  With the configured bound and the amount both
    converted to float64, [B] and [A]: the max_amount check passes when
    [A <= B], it fails exactly when [A > B], and then checkConditions
    returns the reason "Amount exceeds max_amount=" followed by [B]
    printed with no decimals, that is, rounded to the nearest integer.
    The printed number is the bound itself when the bound is an integer
    of magnitude below 2^53.  With the bound 5000 the amount 5000 passes
    and the amount 5001 fails with the reason
    "Amount exceeds max_amount=5000". *)
Theorem checkConditions_max_amount
    (conditions params : gmap string value) (maxAmount amount : value)
    (A B : float64) :
  conditions !! "max_amount" = Some maxAmount →
  params !! "amount" = Some amount →
  as_float64 amount = Some A →
  as_float64 maxAmount = Some B →
  (float64_le A B = true →
     check_max_amount conditions params = Done None ∧
     checkConditions conditions params
     = checkConditions (delete "max_amount" conditions) params) ∧
  (check_max_amount conditions params ≠ Done None ↔ float64_gt A B = true) ∧
  (float64_gt A B = true →
     checkConditions conditions params
     = Done (Some ("Amount exceeds max_amount=" +:+ fmt_f0 B))) ∧
  (∀ n : Z, (Z.abs n < 2 ^ 53)%Z → B = float64_of_int n →
     fmt_f0 B = pretty n) ∧
  max_amount_cases 5000 5000 = replicate 9 (Done None) ∧
  max_amount_cases 5000 5001
  = replicate 9 (Done (Some "Amount exceeds max_amount=5000")).
Proof.
  intros Hc Hp HA HB.
  pose proof (check_max_amount_numeric _ _ _ _ _ _ Hc Hp HA HB) as Hcheck.
  split; [|split; [|split; [|split; [|split]]]].
  - intros Hle. apply float64_le_not_gt in Hle. split.
    + by rewrite Hcheck, Hle.
    + unfold checkConditions.
      rewrite check_currencies_delete, check_folder_prefix_delete by done.
      rewrite Hcheck, Hle.
      by rewrite check_max_amount_absent by (right; apply lookup_delete_eq).
  - rewrite Hcheck. by destruct (float64_gt A B).
  - intros Hgt. apply max_amount_error_is_returned.
    by rewrite Hcheck, Hgt.
  - intros n Hn ->. by apply fmt_f0_integer.
  - vm_compute. reflexivity.
  - vm_compute. reflexivity.
Qed.

(** The bound 5000 of the README against the amount 50000 of the demo. *)
Lemma checkConditions_max_amount_witness :
  checkConditions
    {[ "max_amount" := VInt 5000;
       "currencies" := VSlice [VString "USD"; VString "EUR"] ]}
    {[ "amount" := VFloat64 (float64_of_int 50000);
       "currency" := VString "USD"; "vendor_id" := VString "V99" ]}
  = Done (Some "Amount exceeds max_amount=5000").
Proof.
  refine (proj1 (proj2 (proj2
    (checkConditions_max_amount _ _ (VInt 5000)
       (VFloat64 (float64_of_int 50000)) (float64_of_int 50000)
       (float64_of_int 5000) _ _ _ _))) _); reflexivity.
Defined.

(** C3, the claim as stated fails: with the configured bound 5000.75
    the amount 5001 is rejected and the reason names 5001. *)
Lemma max_amount_reason_rounds_bound :
  checkConditions
    {[ "max_amount" := VFloat64 (binary_normalize 53 1024 20003 (-2) false) ]}
    {[ "amount" := VFloat64 (float64_of_int 5001) ]}
  = Done (Some "Amount exceeds max_amount=5001") ∧
  contains "5000.75" "Amount exceeds max_amount=5001" = false ∧
  SFeqb (binary_normalize 53 1024 20003 (-2) false) (float64_of_int 5001)
  = false.
Proof. vm_compute. auto. Qed.

(** ** The reason of a currency failure *)

(** C4, on the code: the reason of a failed currencies check carries the
    [currency] of the request, so two requests that fail the same check
    get different reasons, and each reason contains the value sent;
    against an empty list of currencies the reason carries whatever
    string was sent. *)
Theorem currency_reason_echoes_parameter :
  let conditions : gmap string value :=
    {[ "currencies" := VSlice [VString "USD"; VString "EUR"] ]} in
  checkConditions conditions {[ "currency" := VString "GBP" ]}
  = Done (Some "Currency GBP not in allowed currencies") ∧
  checkConditions conditions {[ "currency" := VString "JPY" ]}
  = Done (Some "Currency JPY not in allowed currencies") ∧
  contains "GBP" "Currency GBP not in allowed currencies" = true ∧
  contains "JPY" "Currency JPY not in allowed currencies" = true ∧
  ∀ sent : string,
    checkConditions {[ "currencies" := VSlice [] ]}
      {[ "currency" := VString sent ]}
    = Done (Some ("Currency " +:+ sent +:+ " not in allowed currencies")).
Proof.
  split; [vm_compute; reflexivity|].
  split; [vm_compute; reflexivity|].
  split; [vm_compute; reflexivity|].
  split; [vm_compute; reflexivity|].
  intros sent. unfold checkConditions.
  rewrite check_max_amount_absent by (right; reflexivity).
  simpl. unfold check_currencies.
  rewrite !lookup_singleton_eq. reflexivity.
Qed.

(** The reasons of the other two kinds name what is configured only. *)
Lemma check_max_amount_reason conditions params reason :
  check_max_amount conditions params = Done (Some reason) →
  reason = "amount must be a number" ∨
  reason = "max_amount must be a number" ∨
  ∃ maxAmount B, conditions !! "max_amount" = Some maxAmount ∧
                 as_float64 maxAmount = Some B ∧
                 reason = "Amount exceeds max_amount=" +:+ fmt_f0 B.
Proof.
  unfold check_max_amount.
  destruct (conditions !! "max_amount") as [maxAmount|]; [|done].
  destruct (params !! "amount") as [amount|]; [|done].
  destruct (as_float64 amount) as [a|]; [|intros [= <-]; auto].
  destruct (as_float64 maxAmount) as [b|] eqn:Hb; [|intros [= <-]; auto].
  destruct (float64_gt a b); [|done].
  intros [= <-]. right; right. by exists maxAmount, b.
Qed.

Lemma check_folder_prefix_reason conditions params reason :
  check_folder_prefix conditions params = Done (Some reason) →
  reason = "path must be a string" ∨
  ∃ prefix, conditions !! "folder_prefix" = Some (VString prefix) ∧
            reason = "Path must start with prefix " +:+ prefix.
Proof.
  unfold check_folder_prefix.
  destruct (conditions !! "folder_prefix") as [[| | | | | |prefix| |]|];
    try done.
  destruct (params !! "path") as [[| | | | | |pathStr| |]|];
    try done; try (intros [= <-]; auto).
  match goal with |- context [(?a <? ?b)%nat] =>
    destruct (Nat.ltb_spec a b) end.
  - intros [= <-]. right. by exists prefix.
  - rewrite slice_to_in_bounds by lia. simpl.
    destruct (negb _); [|done]. intros [= <-]. right. by exists prefix.
Qed.

(** ** Type mismatches *)

(** A condition whose configured value has another type than the check
    asserts is not checked. *)
Lemma check_currencies_not_a_list conditions params configured :
  conditions !! "currencies" = Some configured →
  (∀ l, configured ≠ VSlice l) →
  check_currencies conditions params = Done None.
Proof.
  intros Hc Hne. unfold check_currencies. rewrite Hc.
  destruct configured; try done. by destruct (Hne l).
Qed.

Lemma check_folder_prefix_not_a_string conditions params configured :
  conditions !! "folder_prefix" = Some configured →
  (∀ s, configured ≠ VString s) →
  check_folder_prefix conditions params = Done None.
Proof.
  intros Hc Hne. unfold check_folder_prefix. rewrite Hc.
  destruct configured; try done. by destruct (Hne s).
Qed.

(** The loops of Evaluate return results, never a panic. *)
Lemma verdict_returns allow params :
  ∃ r, verdict allow params = Done r.
Proof.
  unfold verdict. destruct (Conditions allow) as [conditions|]; [|by eexists].
  destruct (checkConditions_returns conditions params) as [[r|] ->];
    simpl; by eexists.
Qed.

Lemma scan_allow_returns allows tool action params r :
  scan_allow allows tool action params = Some r → ∃ v, r = Done v.
Proof.
  induction allows as [|allow rest IH]; simpl; [done|].
  destruct (negb (String.eqb (Tool allow) tool)); [done|].
  destruct (negb (action_allowed (Actions allow) action)); [done|].
  intros [= <-]. apply verdict_returns.
Qed.

Lemma scan_agents_returns agents agentID tool action params r :
  scan_agents agents agentID tool action params = Some r → ∃ v, r = Done v.
Proof.
  induction agents as [|agentPolicy rest IH]; simpl; [done|].
  destruct (negb (String.eqb (ID agentPolicy) agentID)); [done|].
  destruct (scan_allow (Allow agentPolicy) tool action params) as [r'|]
    eqn:Hscan; [|done].
  intros [= <-]. by apply scan_allow_returns in Hscan.
Qed.

Lemma scan_policies_returns visited agentID tool action params r :
  scan_policies visited agentID tool action params = Some r →
  ∃ v, r = Done v.
Proof.
  induction visited as [|policy rest IH]; simpl; [done|].
  destruct (scan_agents (Agents policy) agentID tool action params) as [r'|]
    eqn:Hscan; [|done].
  intros [= <-]. by apply scan_agents_returns in Hscan.
Qed.

(** C7, on the code: a [currencies] condition that is not a list and a
    [folder_prefix] that is not a string are passed over although the
    parameter is there.  The document with these two values passes
    validatePolicy; on it Evaluate allows the payment in GBP and the
    read of /legal/contract.docx, and checkConditions returns no error
    for them, whatever the request sends.  The block for [max_amount]
    does what the claim says: a bound that is not a number, with an
    amount, fails with "max_amount must be a number". *)
Theorem mistyped_condition_is_skipped :
  validatePolicy mistyped_policy = None ∧
  fst (Evaluate mistyped_engine ["policies/m.yaml"]
         "finance-agent" "payments" "create"
         {[ "currency" := VString "GBP" ]}) = Done (true, "") ∧
  fst (Evaluate mistyped_engine ["policies/m.yaml"]
         "hr-agent" "files" "read"
         {[ "path" := VString "/legal/contract.docx" ]}) = Done (true, "") ∧
  (∀ params, checkConditions {[ "currencies" := VString "USD" ]} params
             = Done None) ∧
  (∀ params, checkConditions {[ "folder_prefix" := VInt 7 ]} params
             = Done None) ∧
  checkConditions {[ "max_amount" := VString "5000" ]}
    {[ "amount" := VInt 50000 ]}
  = Done (Some "max_amount must be a number").
Proof.
  split; [vm_compute; reflexivity|].
  split; [vm_compute; reflexivity|].
  split; [vm_compute; reflexivity|].
  split; [|split; [|vm_compute; reflexivity]].
  - intros params. unfold checkConditions.
    rewrite check_max_amount_absent by (right; reflexivity). simpl.
    rewrite (check_currencies_not_a_list _ _ (VString "USD"));
      [|reflexivity|done]. simpl.
    by rewrite check_folder_prefix_absent by (right; reflexivity).
  - intros params. unfold checkConditions.
    rewrite check_max_amount_absent by (right; reflexivity). simpl.
    rewrite check_currencies_absent by (right; reflexivity). simpl.
    by rewrite (check_folder_prefix_not_a_string _ _ (VInt 7)).
Qed.

(** X24. checkConditions returns on every input, it never panics, and
    so does Evaluate.  When [max_amount] is configured and
    [amount] is present, an [amount] that is not a number fails with
    "amount must be a number", and a [max_amount] that is not a number,
    with a numeric [amount], fails with "max_amount must be a number".
    A present [currency] that is not a string fails the check of a
    [currencies] list, and a present [path] that is not a string fails
    the check of a [folder_prefix] string, each with its reason, and
    checkConditions then returns a reason. *)
Theorem checkConditions_type_mismatch
    (conditions params : gmap string value) :
  (∃ err, checkConditions conditions params = Done err) ∧
  (∀ pe order agentID tool action,
     ∃ r, fst (Evaluate pe order agentID tool action params) = Done r) ∧
  (∀ maxAmount amount,
     conditions !! "max_amount" = Some maxAmount →
     params !! "amount" = Some amount →
     (as_float64 amount = None →
        checkConditions conditions params
        = Done (Some "amount must be a number")) ∧
     (is_Some (as_float64 amount) → as_float64 maxAmount = None →
        checkConditions conditions params
        = Done (Some "max_amount must be a number"))) ∧
  (∀ currencies currency,
     conditions !! "currencies" = Some (VSlice currencies) →
     params !! "currency" = Some currency →
     (∀ s, currency ≠ VString s) →
     check_currencies conditions params
     = Done (Some "currency must be a string") ∧
     ∃ reason, checkConditions conditions params = Done (Some reason)) ∧
  (∀ prefix path,
     conditions !! "folder_prefix" = Some (VString prefix) →
     params !! "path" = Some path →
     (∀ s, path ≠ VString s) →
     check_folder_prefix conditions params
     = Done (Some "path must be a string") ∧
     ∃ reason, checkConditions conditions params = Done (Some reason)).
Proof.
  split; [apply checkConditions_returns|].
  split; [|split; [|split]].
  - intros pe order agentID tool action. simpl.
    unfold evaluate_locked.
    destruct (scan_policies _ _ _ _ _) as [r|] eqn:Hscan; [|by eexists].
    apply scan_policies_returns in Hscan. exact Hscan.
  - intros maxAmount amount Hc Hp. split.
    + intros Ha. apply max_amount_error_is_returned.
      unfold check_max_amount. by rewrite Hc, Hp, Ha.
    + intros [a Ha] Hm. apply max_amount_error_is_returned.
      unfold check_max_amount. by rewrite Hc, Hp, Ha, Hm.
  - intros currencies currency Hc Hp Hne.
    assert (Hcheck : check_currencies conditions params
                     = Done (Some "currency must be a string")).
    { unfold check_currencies. rewrite Hc, Hp.
      destruct currency; try done. by destruct (Hne s). }
    split; [done|].
    unfold checkConditions, and_then. rewrite Hcheck.
    destruct (check_max_amount_returns conditions params) as [[r|] ->];
      simpl; by eexists.
  - intros prefix path Hc Hp Hne.
    assert (Hcheck : check_folder_prefix conditions params
                     = Done (Some "path must be a string")).
    { unfold check_folder_prefix. rewrite Hc, Hp.
      destruct path; try done. by destruct (Hne s). }
    split; [done|].
    unfold checkConditions, and_then. rewrite Hcheck.
    destruct (check_max_amount_returns conditions params) as [[r|] ->];
      simpl; [by eexists|].
    destruct (check_currencies_returns conditions params) as [[r|] ->];
      simpl; by eexists.
Qed.

(** A request whose [amount] is a string, against the policy of the
    README. *)
Lemma checkConditions_type_mismatch_witness :
  checkConditions
    {[ "max_amount" := VInt 5000;
       "currencies" := VSlice [VString "USD"; VString "EUR"] ]}
    {[ "amount" := VString "3000"; "currency" := VString "USD" ]}
  = Done (Some "amount must be a number").
Proof.
  refine (proj1 (proj1 (proj2 (proj2
    (checkConditions_type_mismatch _ _))) (VInt 5000) (VString "3000") _ _)
    _); reflexivity.
Defined.


(** ** Evaluate *)

Lemma action_allowed_elem_of actions action :
  action_allowed actions action = true ↔ action ∈ actions.
Proof.
  induction actions as [|a rest IH]; simpl.
  - split; [done | by intros ?%elem_of_nil].
  - rewrite elem_of_cons. destruct (String.eqb_spec a action) as [->|Hne].
    + split; auto.
    + rewrite IH. split; [auto | intros [?|?]; congruence].
Qed.

Lemma head_app_option {A} (l1 l2 : list A) :
  head (l1 ++ l2) = match head l1 with Some x => Some x | None => head l2 end.
Proof. by destruct l1. Qed.

(** The loop over the allowances stops at the first one that grants. *)
Lemma scan_allow_first allows tool action params :
  scan_allow allows tool action params
  = (λ allow, verdict allow params) <$> head (filter (grants tool action) allows).
Proof.
  induction allows as [|allow rest IH]; simpl; [done|].
  rewrite filter_cons.
  destruct (decide (grants tool action allow)) as [Hg|Hg].
  - destruct Hg as [Ht Ha].
    apply String.eqb_eq in Ht. apply action_allowed_elem_of in Ha.
    by rewrite Ht, Ha.
  - destruct (String.eqb_spec (Tool allow) tool) as [Ht|Ht]; simpl; [|done].
    destruct (action_allowed (Actions allow) action) eqn:Ha; simpl; [|done].
    destruct Hg. split; [done|]. by apply action_allowed_elem_of.
Qed.

Lemma scan_agents_first agents agentID tool action params :
  scan_agents agents agentID tool action params
  = (λ allow, verdict allow params)
    <$> head (filter (grants tool action)
                (agentPolicy ← filter (λ a, ID a = agentID) agents;
                 Allow agentPolicy)).
Proof.
  induction agents as [|agentPolicy rest IH]; simpl; [done|].
  rewrite filter_cons.
  destruct (decide (ID agentPolicy = agentID)) as [Hid|Hid].
  - apply String.eqb_eq in Hid. rewrite Hid. simpl.
    rewrite filter_app, head_app_option, scan_allow_first.
    destruct (head (filter (grants tool action) (Allow agentPolicy)));
      [done|]. apply IH.
  - apply String.eqb_neq in Hid. rewrite Hid. simpl. apply IH.
Qed.

Lemma scan_policies_first visited agentID tool action params :
  scan_policies visited agentID tool action params
  = (λ allow, verdict allow params)
    <$> first_match visited agentID tool action.
Proof.
  unfold first_match, encountered.
  induction visited as [|policy rest IH]; simpl; [done|].
  rewrite filter_app, head_app_option, scan_agents_first.
  match goal with |- context [head ?l] => destruct (head l) end;
    [done|]. apply IH.
Qed.

Lemma first_match_app_l visited later agentID tool action allow :
  first_match visited agentID tool action = Some allow →
  first_match (visited ++ later) agentID tool action = Some allow.
Proof.
  unfold first_match, encountered. intros H.
  by rewrite bind_app, filter_app, head_app_option, H.
Qed.

Lemma range_policies_app store order later :
  range_policies store (order ++ later)
  = range_policies store order ++ range_policies store later.
Proof. apply omap_app. Qed.

Lemma elem_of_encountered visited agentID allow :
  allow ∈ encountered visited agentID ↔
  ∃ policy agentPolicy, policy ∈ visited ∧ agentPolicy ∈ Agents policy ∧
    ID agentPolicy = agentID ∧ allow ∈ Allow agentPolicy.
Proof.
  unfold encountered. rewrite list_elem_of_bind. split.
  - intros (policy & (agentPolicy & Ha & [Hid Hin]%list_elem_of_filter)
                       %list_elem_of_bind & Hp).
    by exists policy, agentPolicy.
  - intros (policy & agentPolicy & Hp & Hin & Hid & Ha).
    exists policy. split; [|done]. apply list_elem_of_bind.
    exists agentPolicy. split; [done|]. by apply list_elem_of_filter.
Qed.

Lemma elem_of_range_policies store order policy :
  policy ∈ range_policies store order ↔
  ∃ k, k ∈ order ∧ store !! k = Some policy.
Proof. unfold range_policies. apply list_elem_of_omap. Qed.

Lemma head_filter_None {A} (P : A → Prop) `{∀ x, Decision (P x)}
    (l : list A) :
  head (filter P l) = None ↔ ∀ x, x ∈ l → ¬ P x.
Proof.
  rewrite head_None. split.
  - intros Hnil x Hin HP. by apply (filter_nil_not_elem_of P l x).
  - intros Hno. destruct (filter P l) as [|x rest] eqn:Hf; [done|].
    assert (x ∈ filter P l) as [HP Hin]%list_elem_of_filter
      by (rewrite Hf; left).
    by destruct (Hno x).
Qed.

Lemma head_filter_Some {A} (P : A → Prop) `{∀ x, Decision (P x)}
    (l : list A) x :
  head (filter P l) = Some x → P x ∧ x ∈ l.
Proof.
  intros Hh. apply (list_elem_of_filter P l x).
  destruct (filter P l) as [|y rest]; [done|].
  injection Hh as ->. left.
Qed.

Lemma first_match_None visited agentID tool action :
  first_match visited agentID tool action = None ↔
  ∀ allow, allow ∈ encountered visited agentID → ¬ grants tool action allow.
Proof. apply head_filter_None. Qed.

(** Evaluate decides by the first match, and denies when there is none. *)
Lemma evaluate_locked_first_match store order agentID tool action params :
  evaluate_locked store order agentID tool action params
  = match first_match (range_policies store order) agentID tool action with
    | Some allow => verdict allow params
    | None => Done (false, not_allowed agentID tool action)
    end.
Proof.
  unfold evaluate_locked. rewrite scan_policies_first.
  by destruct (first_match _ _ _ _).
Qed.

Lemma not_granted_first_match store order agentID tool action :
  ¬ granted_somewhere store agentID tool action →
  first_match (range_policies store order) agentID tool action = None.
Proof.
  intros Hno. apply first_match_None. intros allow Hin Hg.
  apply elem_of_encountered in Hin
    as (policy & agentPolicy & Hp & Ha & Hid & Hallow).
  apply elem_of_range_policies in Hp as (k & _ & Hk).
  apply Hno. by exists k, policy, agentPolicy, allow.
Qed.

Lemma granted_first_match store order agentID tool action :
  iteration_order store order →
  granted_somewhere store agentID tool action →
  is_Some (first_match (range_policies store order) agentID tool action).
Proof.
  intros Horder (k & policy & agentPolicy & allow & Hk & Ha & Hid & Hin & Hg).
  destruct (first_match _ _ _ _) as [found|] eqn:Hfm; [by eexists|].
  exfalso. rewrite first_match_None in Hfm. apply (Hfm allow); [|done].
  apply elem_of_encountered. exists policy, agentPolicy.
  split; [|done]. apply elem_of_range_policies. exists k. split; [|done].
  unfold iteration_order in Horder. rewrite Horder.
  apply list_elem_of_fmap. exists (k, policy). split; [done|].
  by apply elem_of_map_to_list.
Qed.

(** C1. Evaluate decides by the first allowance it encounters, in the
    order of the iteration, that is for the agent and the tool and whose
    actions contain the action: it returns (true, "") when that
    allowance has no conditions or checkConditions returns no error, and
    (false, reason) when checkConditions returns the error [reason];
    what the iteration would visit after it is not consulted.  When the
    iteration encounters no such allowance, and so whenever no stored
    policy has one, the result is (false, "Agent <agentID> is not
    allowed to perform action <action> on tool <tool>").  An iteration
    that yields every key of the store encounters a matching allowance
    when some stored policy has one. *)
Theorem Evaluate_first_match
    (pe : PolicyEngine) (order : list string)
    (agentID tool action : string) (params : gmap string value) :
  let result := fst (Evaluate pe order agentID tool action params) in
  let denied :=
    Done (false, "Agent " +:+ agentID +:+ " is not allowed to perform action "
                   +:+ action +:+ " on tool " +:+ tool) in
  match first_match (range_policies (policies pe) order) agentID tool action
  with
  | Some allow =>
      grants tool action allow ∧
      allow ∈ encountered (range_policies (policies pe) order) agentID ∧
      match Conditions allow with
      | None => result = Done (true, "")
      | Some conditions =>
          (checkConditions conditions params = Done None ∧
           result = Done (true, "")) ∨
          (∃ reason, checkConditions conditions params = Done (Some reason) ∧
                     result = Done (false, reason))
      end ∧
      ∀ later,
        fst (Evaluate pe (order ++ later) agentID tool action params) = result
  | None => result = denied
  end ∧
  (¬ granted_somewhere (policies pe) agentID tool action → result = denied) ∧
  (iteration_order (policies pe) order →
   granted_somewhere (policies pe) agentID tool action →
   is_Some (first_match (range_policies (policies pe) order)
              agentID tool action)).
Proof.
  intros result denied. subst result denied. simpl.
  rewrite evaluate_locked_first_match.
  split; [|split].
  - destruct (first_match _ _ _ _) as [allow|] eqn:Hfm; [|done].
    pose proof Hfm as [Hg Hin]%head_filter_Some.
    split; [done|]. split; [done|]. split.
    + unfold verdict. destruct (Conditions allow) as [conditions|]; [|done].
      destruct (checkConditions_returns conditions params) as [[r|] Hc];
        rewrite Hc; simpl; [right; by exists r | left; done].
    + intros later. rewrite evaluate_locked_first_match.
      rewrite range_policies_app.
      by rewrite (first_match_app_l _ _ _ _ _ allow Hfm).
  - intros Hno. by rewrite not_granted_first_match.
  - apply granted_first_match.
Qed.

Lemma example_engine_order :
  iteration_order (policies example_engine)
    ["policies/a.yaml"; "policies/b.yaml"].
Proof.
  unfold iteration_order. vm_compute.
  first [ reflexivity | apply perm_swap ].
Qed.

(** The two documents of the example, visited in either order: the capped
    allowance met first denies, the open one met first allows. *)
Lemma Evaluate_first_match_witness :
  is_Some (first_match
             (range_policies (policies example_engine)
                ["policies/a.yaml"; "policies/b.yaml"])
             "finance-agent" "payments" "create") ∧
  fst (Evaluate example_engine ["policies/a.yaml"; "policies/b.yaml"]
         "finance-agent" "payments" "create" blocked_params)
  = Done (false, "Amount exceeds max_amount=5000") ∧
  fst (Evaluate example_engine ["policies/b.yaml"; "policies/a.yaml"]
         "finance-agent" "payments" "create" blocked_params)
  = Done (true, "").
Proof.
  split; [|split; vm_compute; reflexivity].
  refine (proj2 (proj2
    (Evaluate_first_match example_engine
       ["policies/a.yaml"; "policies/b.yaml"]
       "finance-agent" "payments" "create" blocked_params))
    example_engine_order _).
  exists "policies/b.yaml", open_policy.
  eexists _, _.
  split; [reflexivity|].
  split; [left|]. split; [reflexivity|]. split; [left|].
  split; [reflexivity|left].
Defined.

(** ** Loading *)

Section LoaderFacts.

Variable yaml_Unmarshal : string → result Policy.
Variable filepath_Join : string → string → string.

(** A load that fails returns the engine it was given. *)
Lemma loadPolicyFile_failure fs pe filePath :
  publishable yaml_Unmarshal fs filePath = None →
  ∃ err, loadPolicyFile yaml_Unmarshal fs pe filePath = (Some err, pe).
Proof.
  unfold publishable, loadPolicyFile.
  destruct (os_ReadFile fs filePath) as [data|err]; [|by eexists].
  destruct (yaml_Unmarshal data) as [policy|err]; [|by eexists].
  destruct (validatePolicy policy); [by eexists | done].
Qed.

(** A load that succeeds stores the valid parse under the path. *)
Lemma loadPolicyFile_success fs pe filePath policy :
  publishable yaml_Unmarshal fs filePath = Some policy →
  loadPolicyFile yaml_Unmarshal fs pe filePath
  = (None, with_mu Unlock
             (with_policies (insert filePath policy) (with_mu Lock pe))).
Proof.
  unfold publishable, loadPolicyFile.
  destruct (os_ReadFile fs filePath) as [data|err]; [|done].
  destruct (yaml_Unmarshal data) as [parsed|err]; [|done].
  destruct (validatePolicy parsed); [done|]. by intros [= ->].
Qed.

Lemma publishable_valid fs filePath policy :
  publishable yaml_Unmarshal fs filePath = Some policy → validatePolicy policy = None.
Proof.
  unfold publishable.
  destruct (os_ReadFile fs filePath) as [data|err]; [|done].
  destruct (yaml_Unmarshal data) as [parsed|err]; [|done].
  destruct (validatePolicy parsed) eqn:Hv; [done|]. by intros [= <-].
Qed.

Lemma loadPolicyFile_policies fs pe filePath :
  policies (snd (loadPolicyFile yaml_Unmarshal fs pe filePath))
  = match publishable yaml_Unmarshal fs filePath with
    | Some policy => <[filePath := policy]> (policies pe)
    | None => policies pe
    end.
Proof.
  destruct (publishable yaml_Unmarshal fs filePath) as [policy|] eqn:Hp.
  - by rewrite (loadPolicyFile_success _ _ _ _ Hp).
  - by destruct (loadPolicyFile_failure fs pe filePath Hp) as [err ->].
Qed.

Lemma loadPolicyFile_baseDir fs pe filePath :
  baseDir (snd (loadPolicyFile yaml_Unmarshal fs pe filePath)) = baseDir pe.
Proof.
  destruct (publishable yaml_Unmarshal fs filePath) as [policy|] eqn:Hp.
  - by rewrite (loadPolicyFile_success _ _ _ _ Hp).
  - by destruct (loadPolicyFile_failure fs pe filePath Hp) as [err ->].
Qed.

Lemma load_entries_baseDir fs entries pe :
  baseDir (load_entries yaml_Unmarshal filepath_Join fs entries pe) = baseDir pe.
Proof.
  revert pe. induction entries as [|entry rest IH]; intros pe; simpl; [done|].
  destruct (skipped entry); [apply IH|].
  rewrite IH. apply loadPolicyFile_baseDir.
Qed.

(** After the loop over a directory, a path holds what its own file
    publishes; the other files play no part in it. *)
Lemma load_entries_lookup fs entries pe k :
  policies (load_entries yaml_Unmarshal filepath_Join fs entries pe) !! k
  = if decide (k ∈ documents filepath_Join (baseDir pe) entries)
    then match publishable yaml_Unmarshal fs k with
         | Some policy => Some policy
         | None => policies pe !! k
         end
    else policies pe !! k.
Proof.
  revert pe. unfold documents.
  induction entries as [|entry rest IH]; intros pe; simpl.
  - done.
  - rewrite filter_cons.
    destruct (decide (skipped entry = false)) as [Hs|Hs].
    + rewrite Hs, fmap_cons.
      rewrite IH, loadPolicyFile_baseDir, loadPolicyFile_policies.
      set (filePath := filepath_Join (baseDir pe) (entry_Name entry)).
      set (others := _ <$> filter _ rest).
      destruct (decide (k = filePath)) as [->|Hne].
      * rewrite (decide_True (P := filePath ∈ filePath :: others))
          by (apply elem_of_cons; by left).
        destruct (publishable yaml_Unmarshal fs filePath) as [policy|];
          [rewrite lookup_insert_eq|]; by destruct (decide _).
      * assert (Hother : policies pe !! k
                         = match publishable yaml_Unmarshal fs filePath with
                           | Some policy => <[filePath := policy]> (policies pe)
                           | None => policies pe
                           end !! k).
        { destruct (publishable yaml_Unmarshal fs filePath); [|done].
          by rewrite lookup_insert_ne. }
        rewrite <- Hother.
        destruct (decide (k ∈ others)) as [Hin|Hnin].
        -- by rewrite decide_True by (apply elem_of_cons; by right).
        -- rewrite decide_False; [done|].
           intros [?|?]%elem_of_cons; done.
    + apply not_false_is_true in Hs. rewrite Hs. apply IH.
Qed.

Lemma store_valid_insert store k policy :
  store_valid store → validatePolicy policy = None →
  store_valid (<[k := policy]> store).
Proof.
  intros Hs Hv k' policy'. rewrite lookup_insert.
  destruct (decide (k = k')); [by intros [= <-] | apply Hs].
Qed.

Lemma store_valid_delete store k :
  store_valid store → store_valid (delete k store).
Proof.
  intros Hs k' policy'. rewrite lookup_delete.
  destruct (decide (k = k')); [done | apply Hs].
Qed.

Lemma loadPolicyFile_valid fs pe filePath :
  store_valid (policies pe) →
  store_valid (policies (snd (loadPolicyFile yaml_Unmarshal fs pe filePath))).
Proof.
  intros Hs. rewrite loadPolicyFile_policies.
  destruct (publishable yaml_Unmarshal fs filePath) as [policy|] eqn:Hp; [|done].
  apply store_valid_insert; [done|]. by apply publishable_valid in Hp.
Qed.

Lemma load_entries_valid fs entries pe :
  store_valid (policies pe) →
  store_valid (policies (load_entries yaml_Unmarshal filepath_Join fs entries pe)).
Proof.
  revert pe. induction entries as [|entry rest IH]; intros pe Hs; simpl;
    [done|].
  destruct (skipped entry); [by apply IH|].
  apply IH. by apply loadPolicyFile_valid.
Qed.

Lemma handle_event_valid fs pe event :
  store_valid (policies pe) →
  store_valid (policies (handle_event yaml_Unmarshal fs pe event)).
Proof.
  intros Hs. unfold handle_event.
  destruct (has_op (event_Op event) fsnotify_Write
            || has_op (event_Op event) fsnotify_Create);
    destruct (has_op (event_Op event) fsnotify_Remove); simpl;
    try apply store_valid_delete; try apply loadPolicyFile_valid; done.
Qed.

Lemma watchForChanges_valid arrivals pe :
  store_valid (policies pe) →
  store_valid (policies (watchForChanges yaml_Unmarshal arrivals pe)).
Proof.
  revert pe.
  induction arrivals as [|[fs event| |err|] rest IH]; intros pe Hs; simpl;
    try done.
  - apply IH. by apply handle_event_valid.
  - by apply IH.
Qed.

Lemma publishable_None fs filePath :
  publishable yaml_Unmarshal fs filePath = None ↔
  (∃ err, os_ReadFile fs filePath = Err err) ∨
  (∃ data, os_ReadFile fs filePath = Ok data ∧
     ((∃ err, yaml_Unmarshal data = Err err) ∨
      (∃ policy err, yaml_Unmarshal data = Ok policy ∧
                     validatePolicy policy = Some err))).
Proof.
  unfold publishable.
  destruct (os_ReadFile fs filePath) as [data|err] eqn:Hread.
  - destruct (yaml_Unmarshal data) as [policy|err] eqn:Hparse.
    + destruct (validatePolicy policy) as [err|] eqn:Hv.
      * split; [|done]. intros _. right. exists data. split; [done|].
        right. by exists policy, err.
      * split; [done|].
        intros [[err ?] | (data' & Hd & [[err He] | (policy' & err & Hp & Hv')])];
          [done| |]; injection Hd as <-; congruence.
    + split; [|done]. intros _. right. exists data. split; [done|].
      left. by exists err.
  - split; [|done]. intros _. left. by exists err.
Qed.

Lemma NewPolicyEngine_policies fs policiesDir entries :
  os_ReadDir fs policiesDir = ReadDir_ok entries →
  fsnotify_NewWatcher fs = None →
  fsnotify_Add fs policiesDir = None →
  ∃ pe, NewPolicyEngine yaml_Unmarshal filepath_Join fs policiesDir = Ok pe ∧
        ∀ k, policies pe !! k
             = if decide (k ∈ documents filepath_Join policiesDir entries)
               then publishable yaml_Unmarshal fs k
               else None.
Proof.
  intros Hdir Hw Ha. unfold NewPolicyEngine, loadAllPolicies.
  rewrite Hw. simpl. rewrite Hdir, Ha.
  eexists. split; [reflexivity|]. intros k.
  rewrite load_entries_lookup. simpl. rewrite lookup_empty.
  destruct (decide _); [|done]. by destruct (publishable _ _ _).
Qed.

Lemma NewPolicyEngine_valid fs policiesDir pe :
  NewPolicyEngine yaml_Unmarshal filepath_Join fs policiesDir = Ok pe →
  store_valid (policies pe).
Proof.
  unfold NewPolicyEngine, loadAllPolicies.
  destruct (fsnotify_NewWatcher fs); [done|]. simpl.
  destruct (os_ReadDir fs policiesDir) as [entries|err|err]; try done.
  destruct (fsnotify_Add fs policiesDir); [done|]. intros [= <-].
  apply load_entries_valid. simpl. intros k policy.
  by rewrite lookup_empty.
Qed.

(** C5. Loading a directory publishes, under each document's path, what
    that document alone yields: its valid parse, or nothing when it
    cannot be read, does not parse or is not valid; the other documents
    are loaded all the same.  A load of one file that fails to read,
    parse or validate returns an error and leaves the engine, and so the
    entry of that source, exactly as it was, and so does the watcher on
    a write or create event for such a file; a load that succeeds puts
    the valid parse under the path.  No load, at start or on reload, and
    no run of the watcher puts a Policy that fails validatePolicy into
    the store. *)
Theorem load_isolated_atomic (fs : FileSystem) :
  (∀ policiesDir entries,
     os_ReadDir fs policiesDir = ReadDir_ok entries →
     fsnotify_NewWatcher fs = None →
     fsnotify_Add fs policiesDir = None →
     ∃ pe,
       NewPolicyEngine yaml_Unmarshal filepath_Join fs policiesDir = Ok pe ∧
       ∀ k, policies pe !! k
            = if decide (k ∈ documents filepath_Join policiesDir entries)
              then publishable yaml_Unmarshal fs k
              else None) ∧
  (∀ pe entries k,
     os_ReadDir fs (baseDir pe) = ReadDir_ok entries →
     fst (loadAllPolicies yaml_Unmarshal filepath_Join fs pe) = None ∧
     policies (snd (loadAllPolicies yaml_Unmarshal filepath_Join fs pe)) !! k
     = if decide (k ∈ documents filepath_Join (baseDir pe) entries)
       then match publishable yaml_Unmarshal fs k with
            | Some policy => Some policy
            | None => policies pe !! k
            end
       else policies pe !! k) ∧
  (∀ pe filePath,
     match publishable yaml_Unmarshal fs filePath with
     | Some policy =>
         validatePolicy policy = None ∧
         fst (loadPolicyFile yaml_Unmarshal fs pe filePath) = None ∧
         policies (snd (loadPolicyFile yaml_Unmarshal fs pe filePath))
         = <[filePath := policy]> (policies pe)
     | None =>
         is_Some (fst (loadPolicyFile yaml_Unmarshal fs pe filePath)) ∧
         snd (loadPolicyFile yaml_Unmarshal fs pe filePath) = pe
     end) ∧
  (∀ pe event,
     has_op (event_Op event) fsnotify_Remove = false →
     publishable yaml_Unmarshal fs (event_Name event) = None →
     handle_event yaml_Unmarshal fs pe event = pe) ∧
  (∀ filePath,
     publishable yaml_Unmarshal fs filePath = None ↔
     (∃ err, os_ReadFile fs filePath = Err err) ∨
     (∃ data, os_ReadFile fs filePath = Ok data ∧
        ((∃ err, yaml_Unmarshal data = Err err) ∨
         (∃ policy err, yaml_Unmarshal data = Ok policy ∧
                        validatePolicy policy = Some err)))) ∧
  (∀ policiesDir pe,
     NewPolicyEngine yaml_Unmarshal filepath_Join fs policiesDir = Ok pe →
     store_valid (policies pe)) ∧
  (∀ pe filePath,
     store_valid (policies pe) →
     store_valid (policies (snd (loadPolicyFile yaml_Unmarshal fs pe
                                   filePath)))) ∧
  (∀ arrivals pe,
     store_valid (policies pe) →
     store_valid (policies (watchForChanges yaml_Unmarshal arrivals pe))).
Proof.
  split; [apply NewPolicyEngine_policies|].
  split; [|split; [|split; [|split; [|split; [|split]]]]].
  - intros pe entries k Hdir. unfold loadAllPolicies. rewrite Hdir. simpl.
    split; [done | apply load_entries_lookup].
  - intros pe filePath.
    destruct (publishable yaml_Unmarshal fs filePath) as [policy|] eqn:Hp.
    + rewrite (loadPolicyFile_success _ _ _ _ Hp). simpl.
      by apply publishable_valid in Hp.
    + destruct (loadPolicyFile_failure fs pe filePath Hp) as [err ->].
      simpl. split; [by eexists | done].
  - intros pe event Hr Hp. unfold handle_event. rewrite Hr.
    destruct (_ || _); [|done].
    by destruct (loadPolicyFile_failure fs pe (event_Name event) Hp)
      as [err ->].
  - apply publishable_None.
  - intros policiesDir pe. apply NewPolicyEngine_valid.
  - intros pe filePath. apply loadPolicyFile_valid.
  - intros arrivals pe. apply watchForChanges_valid.
Qed.

End LoaderFacts.

(** The directory of the example: the good document is published, the
    document without a version and the one that does not parse are not.
    After an edit that breaks the good document, the write event leaves
    the engine with the Policy it had. *)
Lemma load_isolated_atomic_witness :
  (∃ pe,
     NewPolicyEngine example_yaml example_join example_fs "policies" = Ok pe ∧
     policies pe !! "policies/a.yaml" = Some readme_policy ∧
     policies pe !! "policies/bad.yml" = None ∧
     policies pe !! "policies/broken.yaml" = None ∧
     policies pe !! "policies/notes.txt" = None) ∧
  handle_event example_yaml edited_fs example_engine
    {| event_Name := "policies/a.yaml"; event_Op := fsnotify_Write |}
  = example_engine.
Proof.
  split.
  - destruct (proj1 (load_isolated_atomic example_yaml example_join
                       example_fs)
                "policies" _ eq_refl eq_refl eq_refl) as (pe & Hpe & Hk).
    exists pe. split; [exact Hpe|]. rewrite !Hk. vm_compute. auto.
  - exact (proj1 (proj2 (proj2 (proj2
             (load_isolated_atomic example_yaml example_join edited_fs))))
             example_engine
             {| event_Name := "policies/a.yaml"; event_Op := fsnotify_Write |}
             eq_refl eq_refl).
Defined.

(** ** Removing a source *)

Lemma Evaluate_result pe order agentID tool action params :
  fst (Evaluate pe order agentID tool action params)
  = evaluate_locked (policies pe) order agentID tool action params.
Proof. reflexivity. Qed.

Lemma range_policies_cons store k order :
  range_policies store (k :: order)
  = match store !! k with
    | Some policy => policy :: range_policies store order
    | None => range_policies store order
    end.
Proof. reflexivity. Qed.

Lemma range_policies_delete store k order :
  range_policies (delete k store) order
  = range_policies store (filter (λ k', k' ≠ k) order).
Proof.
  induction order as [|k' rest IH]; [done|].
  rewrite filter_cons, range_policies_cons.
  destruct (decide (k' ≠ k)) as [Hne|Heq].
  - rewrite range_policies_cons, lookup_delete_ne by done. by rewrite IH.
  - apply dec_stable in Heq as ->. by rewrite lookup_delete_eq.
Qed.

Lemma first_match_cons policy rest agentID tool action :
  first_match (policy :: rest) agentID tool action
  = match first_match [policy] agentID tool action with
    | Some allow => Some allow
    | None => first_match rest agentID tool action
    end.
Proof.
  unfold first_match, encountered.
  change (policy :: rest) with ([policy] ++ rest).
  rewrite bind_app, filter_app. apply head_app_option.
Qed.

(** A policy without a match for the call can be left out of the
    iteration. *)
Lemma first_match_delete store k order agentID tool action :
  (∀ policy, store !! k = Some policy →
             first_match [policy] agentID tool action = None) →
  first_match (range_policies (delete k store) order) agentID tool action
  = first_match (range_policies store order) agentID tool action.
Proof.
  intros Hk.
  induction order as [|k' rest IH]; [done|].
  rewrite !range_policies_cons.
  destruct (decide (k' = k)) as [->|Hne].
  - rewrite lookup_delete_eq.
    destruct (store !! k) as [policy|] eqn:Hs; [|done].
    by rewrite (first_match_cons policy (range_policies store rest)),
      (Hk policy).
  - rewrite lookup_delete_ne by done.
    destruct (store !! k') as [policy|]; [|done].
    rewrite (first_match_cons policy (range_policies (delete k store) rest)),
      (first_match_cons policy (range_policies store rest)).
    by rewrite IH.
Qed.

Section WatcherFacts.

Variable yaml_Unmarshal : string → result Policy.

Lemma handle_event_remove fs pe event :
  has_op (event_Op event) fsnotify_Remove = true →
  policies (handle_event yaml_Unmarshal fs pe event)
  = delete (event_Name event) (policies pe).
Proof.
  intros Hr. unfold handle_event. rewrite Hr.
  destruct (_ || _); simpl; [|done].
  rewrite loadPolicyFile_policies.
  destruct (publishable _ _ _); [|done]. apply delete_insert_eq.
Qed.

(** C6. Handling an event with the Remove bit leaves the store without
    an entry for the event's path, whatever was there and whatever else
    the event carries, and with every other entry as it was.  An agent
    all of whose allowances were in that source is then denied, with the
    "not allowed" reason, for every tool, action, parameters and
    iteration order.  An evaluation after the removal is the evaluation
    before it with the removed source left out of the iteration; when
    the removed source had no allowance for the agent, tool and action,
    the result is the same as before. *)
Theorem remove_event_deletes_source
    (fs : FileSystem) (pe : PolicyEngine) (event : Event) :
  has_op (event_Op event) fsnotify_Remove = true →
  let pe' := handle_event yaml_Unmarshal fs pe event in
  policies pe' !! event_Name event = None ∧
  (∀ k, k ≠ event_Name event → policies pe' !! k = policies pe !! k) ∧
  (∀ agentID,
     (∀ k policy agentPolicy allow,
        policies pe !! k = Some policy → agentPolicy ∈ Agents policy →
        ID agentPolicy = agentID → allow ∈ Allow agentPolicy →
        k = event_Name event) →
     ∀ order tool action params,
       fst (Evaluate pe' order agentID tool action params)
       = Done (false, "Agent " +:+ agentID
                        +:+ " is not allowed to perform action " +:+ action
                        +:+ " on tool " +:+ tool)) ∧
  (∀ order agentID tool action params,
     fst (Evaluate pe' order agentID tool action params)
     = fst (Evaluate pe (filter (λ k, k ≠ event_Name event) order)
              agentID tool action params)) ∧
  (∀ order agentID tool action params,
     (∀ policy, policies pe !! event_Name event = Some policy →
                first_match [policy] agentID tool action = None) →
     fst (Evaluate pe' order agentID tool action params)
     = fst (Evaluate pe order agentID tool action params)).
Proof.
  intros Hr pe'. subst pe'.
  unfold Evaluate. simpl.
  rewrite (handle_event_remove fs pe event Hr).
  split; [apply lookup_delete_eq|].
  split; [by intros k Hk; apply lookup_delete_ne|].
  split; [|split].
  - intros agentID Honly order tool action params.
    rewrite evaluate_locked_first_match, not_granted_first_match; [done|].
    intros (k & policy & agentPolicy & allow & Hk & Ha & Hid & Hin & _).
    apply lookup_delete_Some in Hk as [Hne Hk].
    by specialize (Honly k policy agentPolicy allow Hk Ha Hid Hin).
  - intros order agentID tool action params.
    unfold evaluate_locked. by rewrite range_policies_delete.
  - intros order agentID tool action params Hk.
    rewrite !evaluate_locked_first_match.
    by rewrite first_match_delete.
Qed.

End WatcherFacts.

(** The README's document is removed: the HR agent, known through it
    alone, is denied; the finance agent keeps the grant of the other
    document. *)
Lemma remove_event_deletes_source_witness :
  let event := {| event_Name := "policies/a.yaml";
                  event_Op := fsnotify_Remove |} in
  let pe' := handle_event example_yaml example_fs example_engine event in
  has_op (event_Op event) fsnotify_Remove = true ∧
  fst (Evaluate pe' ["policies/a.yaml"; "policies/b.yaml"]
         "hr-agent" "files" "read"
         {[ "path" := VString "/hr-docs/employee1.txt" ]})
  = Done (false, "Agent hr-agent is not allowed to perform action read on tool files") ∧
  fst (Evaluate pe' ["policies/a.yaml"; "policies/b.yaml"]
         "finance-agent" "payments" "create" blocked_params)
  = Done (true, "").
Proof.
  intros event pe'. split; [reflexivity|].
  split; [|vm_compute; reflexivity].
  refine (proj1 (proj2 (proj2
    (remove_event_deletes_source example_yaml example_fs example_engine
       event eq_refl))) "hr-agent" _ _ "files" "read" _).
  intros k policy agentPolicy allow Hk Ha Hid Hin.
  unfold example_engine in Hk. simpl in Hk.
  apply lookup_insert_Some in Hk as [[<- _] | [_ Hk]]; [reflexivity|].
  apply lookup_singleton_Some in Hk as [_ <-].
  simpl in Ha. apply list_elem_of_singleton in Ha as ->. discriminate Hid.
Defined.

(** ** The gateway *)

Section PipelineFacts.

Variable json_Unmarshal : string → result (gmap string value).
Variable client_Do : string → string → Downstream.

Lemma Header_Get_absent h key : h !! key = None → Header_Get h key = "".
Proof. unfold Header_Get. by intros ->. Qed.

(** C8, as amended.  HandleRequest never panics and always writes a
    response.  The status is 400 when the path, after one leading slash
    is taken off and the rest is split at the slashes, has fewer than
    three parts or a first part other than "tools" (further parts are
    ignored, and empty ones accepted); else when the X-Agent-ID header
    is absent or empty; else when the body cannot be read; else when the
    body is not empty and json.Unmarshal returns an error.  Otherwise
    Evaluate is called: on a denial the response is 403 with the JSON
    object of "error": "PolicyViolation" and "reason": the evaluator's
    reason; only when Evaluate allows the call and the tool has no
    registered base address is the status 400. *)
Theorem HandleRequest_responses
    (g : Gateway) (order : list string) (r : Request) :
  let pathParts := split_slash (trim_slash (URL_Path r)) in
  let agentID := Header_Get (Header r) "X-Agent-ID" in
  ∃ resp,
    fst (HandleRequest json_Unmarshal client_Do g order r) = Done resp ∧
    ((length pathParts < 3 ∨ pathParts !! 0 ≠ Some "tools") →
       StatusCode resp = 400%Z) ∧
    (Header r !! "X-Agent-ID" = None → agentID = "") ∧
    ∀ tool action,
      pathParts !! 0 = Some "tools" →
      pathParts !! 1 = Some tool →
      pathParts !! 2 = Some action →
      (agentID = "" → StatusCode resp = 400%Z) ∧
      (agentID ≠ "" →
         (∀ err, Body r = Err err → StatusCode resp = 400%Z) ∧
         (∀ bodyBytes err,
            Body r = Ok bodyBytes → bodyBytes ≠ "" →
            json_Unmarshal bodyBytes = Err err →
            StatusCode resp = 400%Z) ∧
         (∀ bodyBytes params,
            Body r = Ok bodyBytes →
            (bodyBytes = "" ∧ params = ∅) ∨
            (bodyBytes ≠ "" ∧ json_Unmarshal bodyBytes = Ok params) →
            ∃ allowed reason,
              fst (Evaluate (policyEngine g) order agentID tool action params)
              = Done (allowed, reason) ∧
              (allowed = false →
                 StatusCode resp = 403%Z ∧
                 Written resp
                 = body_json {[ "error" := "PolicyViolation";
                                "reason" := reason ]}) ∧
              (allowed = true → toolURLs g !! tool = None →
                 StatusCode resp = 400%Z))).
Proof.
  intros pathParts agentID. subst pathParts agentID.
  unfold HandleRequest.
  generalize (split_slash (trim_slash (URL_Path r))). intros parts.
  destruct parts as [|first [|tool [|action rest]]];
    try (eexists; split; [reflexivity|];
         split; [reflexivity|];
         split; [apply Header_Get_absent|];
         intros ? ? ? ? ?; discriminate).
  unfold invalid_path, index. simpl.
  destruct (String.eqb_spec first "tools") as [->|Hfirst]; simpl.
  2: { eexists. split; [reflexivity|]. split; [reflexivity|].
       split; [apply Header_Get_absent|].
       intros ? ? [= ?]. done. }
  destruct (String.eqb_spec (Header_Get (Header r) "X-Agent-ID") "")
    as [Hagent|Hagent].
  { eexists. split; [reflexivity|]. split; [reflexivity|].
    split; [apply Header_Get_absent|].
    intros ? ? _ _ _. split; [reflexivity | done]. }
  destruct (Body r) as [bodyBytes|err] eqn:Hbody.
  2: { eexists. split; [reflexivity|]. split; [reflexivity|].
       split; [apply Header_Get_absent|].
       intros ? ? _ _ _. split; [done|]. intros _.
       split; [reflexivity|]. split; intros; discriminate. }
  set (parsed := if (0 <? String.length bodyBytes)%nat
                 then json_Unmarshal bodyBytes else Ok ∅).
  assert (Hparsed : ∀ params,
            (bodyBytes = "" ∧ params = ∅) ∨
            (bodyBytes ≠ "" ∧ json_Unmarshal bodyBytes = Ok params) →
            parsed = Ok params).
  { intros params [[-> ->] | [Hne Hj]]; [reflexivity|].
    subst parsed. destruct bodyBytes; [done | exact Hj]. }
  assert (Herr : ∀ err, bodyBytes ≠ "" → json_Unmarshal bodyBytes = Err err →
                        parsed = Err err).
  { intros err Hne Hj. subst parsed. destruct bodyBytes; [done | exact Hj]. }
  clearbody parsed.
  destruct parsed as [params|err].
  2: { eexists. split; [reflexivity|]. split; [reflexivity|].
       split; [apply Header_Get_absent|].
       intros ? ? _ _ _. split; [done|]. intros _.
       split; [discriminate|]. split; [reflexivity|].
       intros b p [= <-] Hp. apply Hparsed in Hp. discriminate. }
  unfold Evaluate. cbv zeta. cbn [policies with_mu].
  assert (∃ allowed reason,
            evaluate_locked (policies (policyEngine g)) order
              (Header_Get (Header r) "X-Agent-ID") tool action params
            = Done (allowed, reason)) as (allowed & reason & Hev).
  { rewrite evaluate_locked_first_match.
    destruct (first_match _ _ _ _) as [allow|]; [|by eexists _, _].
    destruct (verdict_returns allow params) as [[a s] ->]. by eexists _, _. }
  rewrite Hev.
  assert (Hfinal : ∀ resp : Response,
    (allowed = false → resp = policy_violation reason) →
    (allowed = true → toolURLs g !! tool = None →
       StatusCode resp = 400%Z) →
    ∀ tool' action',
      Some tool = Some tool' → Some action = Some action' →
      (Header_Get (Header r) "X-Agent-ID" = "" → StatusCode resp = 400%Z) ∧
      (Header_Get (Header r) "X-Agent-ID" ≠ "" →
       (∀ err, Ok bodyBytes = Err err → StatusCode resp = 400%Z) ∧
       (∀ b err, Ok bodyBytes = Ok b → b ≠ "" →
          json_Unmarshal b = Err err → StatusCode resp = 400%Z) ∧
       (∀ b p, Ok bodyBytes = Ok b →
          (b = "" ∧ p = ∅) ∨ (b ≠ "" ∧ json_Unmarshal b = Ok p) →
          ∃ allowed' reason',
            fst (Evaluate (policyEngine g) order
                   (Header_Get (Header r) "X-Agent-ID") tool' action' p)
            = Done (allowed', reason') ∧
            (allowed' = false →
               StatusCode resp = 403%Z ∧
               Written resp = body_json {[ "error" := "PolicyViolation";
                                           "reason" := reason' ]}) ∧
            (allowed' = true → toolURLs g !! tool' = None →
               StatusCode resp = 400%Z)))).
  { intros resp Hdeny Hallow tool' action' [= <-] [= <-].
    split; [done|]. intros _. split; [discriminate|]. split.
    - intros b err [= <-] Hne Hj. specialize (Herr err Hne Hj). discriminate.
    - intros b p [= <-] Hp. apply Hparsed in Hp. injection Hp as <-.
      exists allowed, reason. rewrite Evaluate_result.
      split; [done|]. split; [|done].
      intros Ha. by rewrite (Hdeny Ha). }
  destruct allowed; simpl.
  - destruct (toolURLs g !! tool) as [toolURL|] eqn:Hurl.
    + eexists. split; [reflexivity|]. split; [intros [?|?]; [simpl in *; lia|done]|].
      split; [apply Header_Get_absent|].
      intros tool' action' _. apply Hfinal; done.
    + eexists. split; [reflexivity|]. split; [reflexivity|].
      split; [apply Header_Get_absent|].
      intros tool' action' _. apply Hfinal; done.
  - eexists. split; [reflexivity|].
    split; [intros [?|?]; [simpl in *; lia|done]|].
    split; [apply Header_Get_absent|].
    intros tool' action' _. apply Hfinal; done.
Qed.

End PipelineFacts.

(** C8, the claim as stated fails.  A tool without a registered base
    address is answered 403, not 400, when the policy denies the call;
    and a path with parts after the action is not rejected. *)
Lemma unknown_tool_denied_before_lookup :
  let g := NewGateway example_engine in
  let order := ["policies/b.yaml"; "policies/a.yaml"] in
  toolURLs g !! "wiki" = None ∧
  fst (HandleRequest example_json example_client g order
         (post "/tools/wiki/read" "hr-agent" ""))
  = Done (policy_violation
            "Agent hr-agent is not allowed to perform action read on tool wiki") ∧
  StatusCode (policy_violation
    "Agent hr-agent is not allowed to perform action read on tool wiki")
  = 403%Z ∧
  ∃ resp,
    fst (HandleRequest example_json example_client g order
           (post "/tools/payments/create/and/more" "finance-agent" ""))
    = Done resp ∧ StatusCode resp = 200%Z.
Proof.
  intros g order. split; [reflexivity|]. split; [reflexivity|].
  split; [reflexivity|]. eexists. split; reflexivity.
Qed.

(** The blocked request of the demo is answered 403 with the reason of
    the evaluator. *)
Lemma HandleRequest_responses_witness :
  ∃ resp,
    fst (HandleRequest example_json example_client
           (NewGateway example_engine)
           ["policies/a.yaml"; "policies/b.yaml"]
           (post "/tools/payments/create" "finance-agent" blocked_body))
    = Done resp ∧
    StatusCode resp = 403%Z ∧
    Written resp = body_json {[ "error" := "PolicyViolation";
                                "reason" := "Amount exceeds max_amount=5000" ]}.
Proof.
  destruct (HandleRequest_responses example_json example_client
              (NewGateway example_engine)
              ["policies/a.yaml"; "policies/b.yaml"]
              (post "/tools/payments/create" "finance-agent" blocked_body))
    as (resp & Hresp & _ & _ & Hparts).
  destruct (Hparts "payments" "create" eq_refl eq_refl eq_refl)
    as [_ Hagent].
  assert (Hne : Header_Get
                  (Header (post "/tools/payments/create" "finance-agent"
                             blocked_body)) "X-Agent-ID" ≠ "")
    by discriminate.
  destruct (Hagent Hne) as (_ & _ & Hbody).
  assert (Hnonempty : blocked_body ≠ "") by discriminate.
  destruct (Hbody blocked_body blocked_params eq_refl
              (or_intror (conj Hnonempty eq_refl)))
    as (allowed & reason & Hev & Hdeny & _).
  vm_compute in Hev. injection Hev as <- <-.
  exists resp. split; [exact Hresp|]. exact (Hdeny eq_refl).
Defined.

(** ** Evaluate while a reload is in flight *)

Module ConcurrentFacts.
Import Concurrent Invariant.

Lemma inside_cons cr calls :
  inside (cr :: calls)
  = ((if inside_RLock cr.2 then 1 else 0) + inside calls)%nat.
Proof.
  unfold inside. rewrite filter_cons.
  destruct (inside_RLock cr.2); simpl; reflexivity.
Qed.

(** Replacing one call changes the count by what that call contributes. *)
Lemma inside_insert calls i cr cr' :
  calls !! i = Some cr →
  (inside (<[i := cr']> calls) + (if inside_RLock cr.2 then 1 else 0)
   = inside calls + (if inside_RLock cr'.2 then 1 else 0))%nat.
Proof.
  revert i. induction calls as [|x rest IH]; intros i Hi; [done|].
  destruct i as [|i]; simpl in *.
  - injection Hi as ->. rewrite !inside_cons. lia.
  - rewrite !inside_cons. specialize (IH i Hi). lia.
Qed.

Lemma inside_zero calls cr :
  inside calls = 0 → cr ∈ calls → inside_RLock cr.2 = false.
Proof.
  induction calls as [|x rest IH]; intros Hz Hin.
  - by apply elem_of_nil in Hin.
  - rewrite inside_cons in Hz. apply elem_of_cons in Hin as [->|Hin].
    + destruct (inside_RLock x.2); [lia | done].
    + apply IH; [lia | done].
Qed.

Section Reload.

Variable filePath : string.
Variable policy : Policy.
Variable store : gmap string Policy.

(** With nobody inside the read lock, what is known of the calls does
    not depend on the store. *)
Lemma calls_ok_any_store calls now now' :
  inside calls = 0 →
  Forall (call_ok filePath policy store now) calls →
  Forall (call_ok filePath policy store now') calls.
Proof.
  intros Hz Hall. apply Forall_forall. intros cr Hin.
  pose proof (inside_zero calls cr Hz Hin) as Hout.
  rewrite Forall_forall in Hall. specialize (Hall cr Hin).
  unfold call_ok in *. by destruct (cr.2).
Qed.

Lemma invariant_initial calls :
  invariant filePath policy store (initial store calls).
Proof.
  assert (Hin : inside ((λ c, (c, at_RLock)) <$> calls) = 0).
  { induction calls as [|c rest IH]; [done|].
    rewrite fmap_cons, inside_cons. simpl. exact IH. }
  split; simpl; try done.
  apply Forall_fmap, Forall_forall. by intros c _.
Qed.

Lemma invariant_step s s' :
  invariant filePath policy store s →
  step filePath policy s s' →
  invariant filePath policy store s'.
Proof.
  intros [Hstore Hreaders Hwriter Hexcl Hcalls] Hstep.
  destruct Hstep as
    [s i c order Hi Hw Horder
    |s i c k todo Hi Hk
    |s i c k todo p Hi Hk Hscan
    |s i c k todo p r Hi Hk Hscan
    |s i c Hi
    |s i c r Hi
    |s Hr Hw Hz
    |s Hr
    |s Hr]; simpl in *.
  - (* RLock *)
    pose proof (inside_insert _ i _ (c, ranging order) Hi) as Hcount.
    simpl in Hcount.
    split; simpl; [done | lia | done | |].
    + intros Hwr. rewrite Hwriter in Hw. congruence.
    + apply Forall_insert; [done|]. unfold call_ok; cbn [fst snd]. by exists order.
  - (* the key is gone *)
    pose proof (inside_insert _ i _ (c, ranging todo) Hi) as Hcount.
    simpl in Hcount.
    pose proof (Forall_lookup_1 _ _ _ _ Hcalls Hi) as Hc.
    unfold call_ok in Hc; cbn [fst snd] in Hc. destruct Hc as (order & Ho & Hc).
    split; simpl; [done | lia | done | intros ?; rewrite <- Hexcl; [lia|done] |].
    apply Forall_insert; [done|]. unfold call_ok; cbn [fst snd].
    exists order. split; [done|]. rewrite Hc.
    by rewrite range_policies_cons, Hk.
  - (* the policy has nothing for the call *)
    pose proof (inside_insert _ i _ (c, ranging todo) Hi) as Hcount.
    simpl in Hcount.
    pose proof (Forall_lookup_1 _ _ _ _ Hcalls Hi) as Hc.
    unfold call_ok in Hc; cbn [fst snd] in Hc. destruct Hc as (order & Ho & Hc).
    split; simpl; [done | lia | done | intros ?; rewrite <- Hexcl; [lia|done] |].
    apply Forall_insert; [done|]. unfold call_ok; cbn [fst snd].
    exists order. split; [done|]. rewrite Hc.
    rewrite range_policies_cons, Hk. simpl. by rewrite Hscan.
  - (* the policy decides the call *)
    pose proof (inside_insert _ i _ (c, at_RUnlock r) Hi) as Hcount.
    simpl in Hcount.
    pose proof (Forall_lookup_1 _ _ _ _ Hcalls Hi) as Hc.
    unfold call_ok in Hc; cbn [fst snd] in Hc. destruct Hc as (order & Ho & Hc).
    split; simpl; [done | lia | done | intros ?; rewrite <- Hexcl; [lia|done] |].
    apply Forall_insert; [done|]. unfold call_ok; cbn [fst snd].
    exists order. split; [done|]. unfold evaluate_locked. rewrite Hc.
    rewrite range_policies_cons, Hk. simpl. by rewrite Hscan.
  - (* the iteration ends *)
    pose proof (inside_insert _ i _
      (c, at_RUnlock (Done (false, not_allowed (agentID c) (tool c)
                                     (action c)))) Hi) as Hcount.
    simpl in Hcount.
    pose proof (Forall_lookup_1 _ _ _ _ Hcalls Hi) as Hc.
    unfold call_ok in Hc; cbn [fst snd] in Hc. destruct Hc as (order & Ho & Hc).
    split; simpl; [done | lia | done | intros ?; rewrite <- Hexcl; [lia|done] |].
    apply Forall_insert; [done|]. unfold call_ok; cbn [fst snd].
    exists order. split; [done|]. unfold evaluate_locked. by rewrite Hc.
  - (* RUnlock *)
    pose proof (inside_insert _ i _ (c, returned r) Hi) as Hcount.
    simpl in Hcount.
    pose proof (Forall_lookup_1 _ _ _ _ Hcalls Hi) as Hc.
    unfold call_ok in Hc; cbn [fst snd] in Hc.
    split; simpl; [done | lia | done | intros ?; rewrite Hexcl in Hcount; [lia|done] |].
    apply Forall_insert; [done|]. unfold call_ok, sees_one_store; cbn [fst snd].
    rewrite Hstore in Hc. unfold store_at in Hc.
    destruct (st_reload s); auto.
  - (* Lock *)
    split; simpl; [by rewrite Hstore, Hr | done | done | |done].
    intros _. by rewrite <- Hreaders.
  - (* the assignment *)
    assert (Hz : inside (st_calls s) = 0) by (apply Hexcl; by rewrite Hr).
    split; simpl; [by rewrite Hstore, Hr | done | by rewrite Hwriter, Hr
                  | done |].
    by apply (calls_ok_any_store _ (st_policies s)).
  - (* Unlock *)
    split; simpl; [by rewrite Hstore, Hr | done | done | done | done].
Qed.

Lemma invariant_reachable calls s :
  reachable filePath policy store calls s →
  invariant filePath policy store s.
Proof.
  induction 1 as [|s s' _ IH Hstep];
    [apply invariant_initial | by apply (invariant_step s)].
Qed.

(** C9. In every state that the calls of Evaluate and one reload can
    reach by interleaving their steps, a call that has returned returned
    what Evaluate returns on one store: the store as it was before the
    reload, or that store with the reloaded source's entry replaced by
    the new Policy, for some iteration order of that store's keys.  The
    reload is never between its Lock and its Unlock while a call holds
    the read lock; the store is at all times one of the two, so the
    source's entry is the old Policy or the new one and every other
    entry is as it was. *)
Theorem Evaluate_sees_one_store (calls : list call) (s : state) :
  reachable filePath policy store calls s →
  (∀ i c r,
     st_calls s !! i = Some (c, returned r) →
     ∃ S order,
       (S = store ∨ S = <[filePath := policy]> store) ∧
       iteration_order S order ∧
       r = evaluate_locked S order (agentID c) (tool c) (action c)
             (params c)) ∧
  (∀ i c r,
     st_calls s !! i = Some (c, r) → inside_RLock r = true →
     writing (st_reload s) = false) ∧
  (st_policies s = store ∨ st_policies s = <[filePath := policy]> store) ∧
  (st_policies s !! filePath = store !! filePath ∨
   st_policies s !! filePath = Some policy) ∧
  (∀ k, k ≠ filePath → st_policies s !! k = store !! k).
Proof.
  intros Hreach.
  destruct (invariant_reachable calls s Hreach)
    as [Hstore Hreaders Hwriter Hexcl Hcalls].
  assert (Htwo : st_policies s = store ∨
                 st_policies s = <[filePath := policy]> store).
  { rewrite Hstore. unfold store_at. destruct (st_reload s); auto. }
  split; [|split; [|split; [|split]]].
  - intros i c r Hi.
    pose proof (Forall_lookup_1 _ _ _ _ Hcalls Hi) as Hc.
    unfold call_ok, sees_one_store, result_on in Hc. cbn [fst snd] in Hc.
    destruct Hc as [(order & Ho & ->) | (order & Ho & ->)].
    + exists store, order. auto.
    + exists (<[filePath := policy]> store), order. auto.
  - intros i c r Hi Hin.
    destruct (writing (st_reload s)) eqn:Hw; [|done].
    assert ((c, r) ∈ st_calls s) as Hel by by eapply list_elem_of_lookup_2.
    pose proof (inside_zero _ _ (Hexcl eq_refl) Hel) as Hout.
    simpl in Hout. congruence.
  - exact Htwo.
  - destruct Htwo as [-> | ->]; [by left|]. right. apply lookup_insert_eq.
  - intros k Hk. destruct Htwo as [-> | ->]; [done|].
    by apply lookup_insert_ne.
Qed.

End Reload.

(** A reload publishes the open document; the call that starts after it
    sees the new store, and is allowed. *)
Lemma Evaluate_sees_one_store_witness :
  ∃ s,
    reachable "policies/b.yaml" open_policy readme_store [finance_call] s ∧
    st_calls s !! 0 = Some (finance_call, returned (Done (true, ""))) ∧
    ∃ S order,
      (S = readme_store ∨
       S = <["policies/b.yaml" := open_policy]> readme_store) ∧
      iteration_order S order ∧
      Done (true, "")
      = evaluate_locked S order "finance-agent" "payments" "create"
          blocked_params.
Proof.
  pose proof (reachable_initial "policies/b.yaml" open_policy readme_store
                [finance_call]) as H0.
  assert (Horder : iteration_order
                     (<["policies/b.yaml" := open_policy]> readme_store)
                     ["policies/b.yaml"; "policies/a.yaml"]).
  { unfold iteration_order. vm_compute.
    first [ reflexivity | apply perm_swap ]. }
  run_step H0
    ltac:(fun s => constr:(step_Lock "policies/b.yaml" open_policy s
                             eq_refl eq_refl eq_refl)) H1.
  run_step H1
    ltac:(fun s => constr:(step_assign "policies/b.yaml" open_policy s
                             eq_refl)) H2.
  run_step H2
    ltac:(fun s => constr:(step_Unlock "policies/b.yaml" open_policy s
                             eq_refl)) H3.
  run_step H3
    ltac:(fun s => constr:(step_RLock "policies/b.yaml" open_policy s 0
                             finance_call _ eq_refl eq_refl Horder)) H4.
  run_step H4
    ltac:(fun s => constr:(step_range_return "policies/b.yaml" open_policy
                             s 0 finance_call "policies/b.yaml"
                             ["policies/a.yaml"] open_policy
                             (Done (true, "")) eq_refl eq_refl eq_refl)) H5.
  run_step H5
    ltac:(fun s => constr:(step_RUnlock "policies/b.yaml" open_policy s 0
                             finance_call (Done (true, "")) eq_refl)) H6.
  eexists. split; [exact H6|]. split; [reflexivity|].
  exact (proj1 (Evaluate_sees_one_store _ _ _ _ _ H6) 0 finance_call
           (Done (true, "")) eq_refl).
Defined.

End ConcurrentFacts.

(** ** Evaluate leaves the engine as it found it *)

Lemma RUnlock_RLock pe : with_mu RUnlock (with_mu RLock pe) = pe.
Proof. by destruct pe as [[n w] store dir]. Qed.

Lemma HandleRequest_engine json_Unmarshal client_Do g order r :
  snd (HandleRequest json_Unmarshal client_Do g order r) = g.
Proof.
  destruct g as [pe urls]. unfold HandleRequest, Evaluate. simpl.
  rewrite RUnlock_RLock.
  repeat (case_match; simpl; try reflexivity).
Qed.

(** *** The accesses of checkConditions

    Each block reads the two maps and returns what the check says of the
    maps as they are; the memory is the one it started on. *)

Lemma map_index_reads h key m :
  Memory.map_index h key m = (Done (Memory.map_at m h !! key), m).
Proof.
  unfold Memory.map_index, Memory.map_at.
  destruct h as [a|]; [|done].
  by destruct (Memory.mem_maps m !! a).
Qed.

Lemma check_max_amount_reads conditions params m :
  Memory.check_max_amount conditions params m
  = (check_max_amount (Memory.map_at m conditions) (Memory.map_at m params),
     m).
Proof.
  unfold Memory.check_max_amount, check_max_amount, Memory.bind.
  rewrite map_index_reads.
  destruct (Memory.map_at m conditions !! "max_amount") as [maxAmount|];
    [|done].
  rewrite map_index_reads.
  destruct (Memory.map_at m params !! "amount") as [amount|]; [|done].
  destruct (as_float64 amount) as [a|]; [|done].
  destruct (as_float64 maxAmount) as [b|]; [|done].
  by destruct (float64_gt a b).
Qed.

Lemma check_currencies_reads conditions params m :
  Memory.check_currencies conditions params m
  = (check_currencies (Memory.map_at m conditions) (Memory.map_at m params),
     m).
Proof.
  unfold Memory.check_currencies, check_currencies, Memory.bind.
  rewrite map_index_reads.
  destruct (Memory.map_at m conditions !! "currencies")
    as [[| | | | | | |currencies|]|]; try done.
  rewrite map_index_reads.
  destruct (Memory.map_at m params !! "currency")
    as [[| | | | | |currencyStr| |]|]; try done.
  by destruct (currency_allowed currencies currencyStr).
Qed.

Lemma check_folder_prefix_reads conditions params m :
  Memory.check_folder_prefix conditions params m
  = (check_folder_prefix (Memory.map_at m conditions)
       (Memory.map_at m params), m).
Proof.
  unfold Memory.check_folder_prefix, check_folder_prefix, Memory.bind.
  rewrite map_index_reads.
  destruct (Memory.map_at m conditions !! "folder_prefix")
    as [[| | | | | |prefix| |]|]; try done.
  rewrite map_index_reads.
  destruct (Memory.map_at m params !! "path")
    as [[| | | | | |pathStr| |]|]; try done.
  destruct (String.length pathStr <? String.length prefix)%nat; [done|].
  unfold Memory.run.
  destruct (slice_to pathStr (String.length prefix)) as [head|msg];
    simpl; [|done].
  by destruct (negb (String.eqb head prefix)).
Qed.

Lemma checkConditions_reads conditions params m :
  Memory.checkConditions conditions params m
  = (checkConditions (Memory.map_at m conditions) (Memory.map_at m params),
     m).
Proof.
  unfold Memory.checkConditions, checkConditions, and_then, Memory.bind.
  rewrite check_max_amount_reads.
  destruct (check_max_amount _ _) as [[reason|]|msg]; simpl; try done.
  rewrite check_currencies_reads.
  destruct (check_currencies _ _) as [[reason|]|msg]; simpl; try done.
  by rewrite check_folder_prefix_reads.
Qed.

(** *** The accesses of the loops of Evaluate *)

Lemma verdict_reads allow params m :
  Memory.verdict allow params m
  = (verdict (Memory.allowance_at m allow) (Memory.map_at m params), m).
Proof.
  unfold Memory.verdict, verdict, Memory.bind. simpl.
  destruct (Memory.stored_Conditions allow) as [conditions|]; simpl; [|done].
  rewrite checkConditions_reads. simpl.
  by destruct (checkConditions _ _) as [[reason|]|msg].
Qed.

Lemma scan_allow_reads allows tool action params m :
  Memory.scan_allow allows tool action params m
  = (outcome (scan_allow (Memory.allowance_at m <$> allows) tool action
                (Memory.map_at m params)), m).
Proof.
  induction allows as [|allow rest IH]; simpl; [done|].
  destruct (negb (String.eqb (Memory.stored_Tool allow) tool)); [done|].
  destruct (negb (action_allowed (Memory.stored_Actions allow) action));
    [done|].
  unfold Memory.bind. rewrite verdict_reads. simpl.
  by destruct (verdict _ _).
Qed.

Lemma scan_agents_reads agents agentID tool action params m :
  Memory.scan_agents agents agentID tool action params m
  = (outcome (scan_agents (Memory.agent_at m <$> agents) agentID tool action
                (Memory.map_at m params)), m).
Proof.
  induction agents as [|agentPolicy rest IH]; simpl; [done|].
  destruct (negb (String.eqb (Memory.stored_ID agentPolicy) agentID));
    [done|].
  unfold Memory.bind. rewrite scan_allow_reads.
  destruct (scan_allow _ _ _ _) as [[r|msg]|]; simpl; try done.
Qed.

(** The loop over the policies reads only, also when it comes upon a
    pointer that leads nowhere and panics. *)
Lemma scan_policies_keeps visited agentID tool action params m :
  snd (Memory.scan_policies visited agentID tool action params m) = m.
Proof.
  induction visited as [|policy rest IH]; simpl; [done|].
  unfold Memory.bind, Memory.load_Agents.
  destruct (Memory.mem_objects m !! policy) as [object|]; [|done].
  rewrite scan_agents_reads.
  destruct (scan_agents _ _ _ _ _) as [[r|msg]|]; simpl; try done.
Qed.

Lemma scan_policies_reads visited objects agentID tool action params m :
  Forall2 (λ a object, Memory.mem_objects m !! a = Some object)
    visited objects →
  Memory.scan_policies visited agentID tool action params m
  = (outcome (scan_policies (Memory.policy_at m <$> objects) agentID tool
                action (Memory.map_at m params)), m).
Proof.
  induction 1 as [|policy object rest objects Hat _ IH]; simpl; [done|].
  unfold Memory.bind, Memory.load_Agents. rewrite Hat.
  rewrite scan_agents_reads.
  destruct (scan_agents _ _ _ _ _) as [[r|msg]|]; simpl; try done.
Qed.

Lemma store_of_lookup m k :
  Memory.store_of m !! k
  = Memory.mem_policies m !! k
      ≫= λ a, Memory.policy_at m <$> Memory.mem_objects m !! a.
Proof. unfold Memory.store_of. by rewrite lookup_omap. Qed.

(** The pointers the iteration yields lead to the policies of the store,
    in the same order. *)
Lemma range_policies_reads m order :
  Memory.allocated m →
  ∃ objects,
    Forall2 (λ a object, Memory.mem_objects m !! a = Some object)
      (omap (λ k, Memory.mem_policies m !! k) order) objects ∧
    range_policies (Memory.store_of m) order
    = Memory.policy_at m <$> objects.
Proof.
  intros Halloc. unfold range_policies.
  induction order as [|k order (objects & Hall & Heq)].
  - by exists [].
  - cbn [omap list_omap]. rewrite store_of_lookup.
    destruct (Memory.mem_policies m !! k) as [a|] eqn:Hk; simpl.
    + destruct (Halloc k a Hk) as [object Ha]. rewrite Ha. simpl.
      exists (object :: objects). split; [by constructor|].
      by rewrite Heq.
    + by exists objects.
Qed.

(** Evaluate on the memory returns what Evaluate returns on the store
    that the memory holds. *)
Lemma Evaluate_reads m order agentID tool action params :
  Memory.allocated m →
  fst (Memory.Evaluate order agentID tool action params m)
  = fst (Evaluate (Memory.engine_of m) order agentID tool action
           (Memory.map_at m params)).
Proof.
  intros Halloc.
  set (m1 := snd (Memory.on_mu RLock m)).
  assert (Halloc1 : Memory.allocated m1) by exact Halloc.
  destruct (range_policies_reads m1 order Halloc1) as (objects & Hall & Heq).
  change (fst (Evaluate (Memory.engine_of m) order agentID tool action
                 (Memory.map_at m params)))
    with (evaluate_locked (Memory.store_of m1) order agentID tool action
            (Memory.map_at m1 params)).
  unfold Memory.Evaluate, Memory.defer, Memory.bind.
  change (Memory.on_mu RLock m) with (Done tt, m1).
  unfold Memory.range_policies. cbv beta iota.
  rewrite (scan_policies_reads _ objects agentID tool action params m1 Hall).
  unfold evaluate_locked. rewrite Heq.
  by destruct (scan_policies _ _ _ _ _) as [[r|msg]|].
Qed.

Lemma Evaluate_keeps m order agentID tool action params :
  snd (Memory.Evaluate order agentID tool action params m) = m.
Proof.
  unfold Memory.Evaluate, Memory.defer, Memory.bind, Memory.on_mu,
    Memory.range_policies. simpl.
  match goal with
  | |- context [Memory.scan_policies ?v ?a ?t ?c ?p ?mem] =>
      pose proof (scan_policies_keeps v a t c p mem) as Hkeep;
      destruct (Memory.scan_policies v a t c p mem) as [[[r|]|msg] m']
  end; simpl in *; subst m'; simpl;
    by destruct m as [[n w] store dir heap maps].
Qed.

(** C10. Evaluate, run on the engine as it lies in memory, with the
    stored documents, their conditions maps and the parameters reached
    through pointers, leaves the whole memory as it found it, on every
    input and whether it returns or panics: the map of the engine, every
    stored Policy with its version, agents, allowances and conditions,
    the parameters, and the mutex, released again.  So does
    checkConditions.  What Evaluate returns there is what it returns on
    the store that the memory holds.  The statements that do change the
    store are the assignment of loadPolicyFile, which puts the document
    under its key, and the delete of the remove event.  The request
    handler, which calls Evaluate, hands the engine on as it got it; and
    in a run where calls and a reload interleave, the only step that
    changes the store is that assignment: no step of a call of Evaluate
    does. *)
Theorem Evaluate_read_only
    (m : Memory.memory) (order : list string)
    (agentID tool action : string) (params : option Memory.address) :
  snd (Memory.Evaluate order agentID tool action params m) = m ∧
  Memory.store_of (snd (Memory.Evaluate order agentID tool action params m))
  = Memory.store_of m ∧
  (∀ conditions,
     snd (Memory.checkConditions conditions params m) = m) ∧
  (Memory.allocated m →
   fst (Memory.Evaluate order agentID tool action params m)
   = fst (Evaluate (Memory.engine_of m) order agentID tool action
            (Memory.map_at m params))) ∧
  (∀ filePath policy object,
     Memory.mem_objects m !! policy = Some object →
     Memory.store_of (snd (Memory.publish filePath policy m))
     = <[filePath := Memory.policy_at m object]> (Memory.store_of m)) ∧
  (∀ name,
     Memory.store_of (snd (Memory.remove name m))
     = delete name (Memory.store_of m)) ∧
  (∀ json_Unmarshal client_Do urls r,
     policyEngine
       (snd (HandleRequest json_Unmarshal client_Do
               {| policyEngine := Memory.engine_of m; toolURLs := urls |}
               order r))
     = Memory.engine_of m) ∧
  (∀ filePath policy s s',
     Concurrent.step filePath policy s s' →
     Concurrent.st_policies s' = Concurrent.st_policies s ∨
     (Concurrent.st_reload s = Concurrent.at_assign ∧
      Concurrent.st_policies s'
      = <[filePath := policy]> (Concurrent.st_policies s))).
Proof.
  split; [apply Evaluate_keeps|].
  split; [by rewrite Evaluate_keeps|].
  split; [intros conditions; by rewrite checkConditions_reads|].
  split; [intros Halloc; by apply Evaluate_reads|].
  split; [|split; [|split]].
  - intros filePath policy object Hat.
    unfold Memory.publish, Memory.bind, Memory.store_of. simpl.
    apply omap_insert_Some. by rewrite Hat.
  - intros name.
    unfold Memory.remove, Memory.bind, Memory.store_of. simpl.
    apply omap_delete.
  - intros json_Unmarshal client_Do urls r.
    by rewrite HandleRequest_engine.
  - intros filePath policy s s' Hstep.
    destruct Hstep; simpl; auto.
Qed.

Lemma example_memory_allocated : Memory.allocated example_memory.
Proof.
  intros k a Hk. simpl in Hk.
  apply lookup_singleton_Some in Hk as [_ <-]. by eexists.
Qed.

(** The blocked request of the demo on the README's policy in memory:
    it is denied as on the store, and the memory is as before. *)
Lemma Evaluate_read_only_witness :
  Memory.Evaluate ["policies/a.yaml"] "finance-agent" "payments" "create"
    (Some 4%positive) example_memory
  = (Done (false, "Amount exceeds max_amount=5000"), example_memory).
Proof.
  pose proof (Evaluate_read_only example_memory ["policies/a.yaml"]
                "finance-agent" "payments" "create" (Some 4%positive))
    as (Hkeep & _ & _ & Hreads & _).
  pose proof (Hreads example_memory_allocated) as Hfst.
  apply injective_projections; [|exact Hkeep].
  rewrite Hfst. vm_compute. reflexivity.
Defined.

(** * Further properties of the condition checks *)

(** ** folder_prefix *)

Lemma substring_prefix_app (p r : string) :
  String.substring 0 (String.length p) (p +:+ r) = p.
Proof.
  induction p as [|c p IH]; simpl.
  - by destruct r.
  - by rewrite IH.
Qed.

Lemma substring_prefix_inv (p s : string) :
  (String.length p <= String.length s)%nat →
  String.substring 0 (String.length p) s = p →
  ∃ r, s = p +:+ r.
Proof.
  revert s. induction p as [|c p IH]; intros s Hlen Hsub; simpl in *.
  - by exists s.
  - destruct s as [|c' s]; simpl in *; [lia|].
    injection Hsub as -> Hsub.
    destruct (IH s) as [r ->]; [lia | done |]. by exists r.
Qed.

Lemma length_append (p r : string) :
  String.length (p +:+ r) = (String.length p + String.length r)%nat.
Proof. induction p as [|c p IH]; simpl; [done | by rewrite IH]. Qed.

(** X1. With a [folder_prefix] string configured and a string [path]
    sent, the check passes exactly when the path is the prefix followed
    by anything, compared byte for byte; otherwise it fails with the
    reason that names the prefix.  Nothing is normalised: what follows
    the prefix may climb out of the folder again. *)
Theorem folder_prefix_passes_iff
    (conditions params : gmap string value) (prefix pathStr : string) :
  conditions !! "folder_prefix" = Some (VString prefix) →
  params !! "path" = Some (VString pathStr) →
  (check_folder_prefix conditions params = Done None ↔
   ∃ rest, pathStr = prefix +:+ rest) ∧
  (check_folder_prefix conditions params = Done None ∨
   check_folder_prefix conditions params
   = Done (Some ("Path must start with prefix " +:+ prefix))).
Proof.
  intros Hc Hp. unfold check_folder_prefix. rewrite Hc, Hp.
  destruct (Nat.ltb_spec (String.length pathStr) (String.length prefix))
    as [Hlt|Hge].
  - split; [|by right]. split; [done|].
    intros [rest ->]. rewrite length_append in Hlt. lia.
  - rewrite slice_to_in_bounds by lia. simpl.
    destruct (String.eqb_spec
                (String.substring 0 (String.length prefix) pathStr) prefix)
      as [Heq|Hne]; simpl.
    + split; [|by left]. split; [|done]. intros _.
      by apply substring_prefix_inv.
    + split; [|by right]. split; [done|].
      intros [rest ->]. by rewrite substring_prefix_app in Hne.
Qed.

(** The HR agent of the README reads a file outside /hr-docs/ through a
    path that starts inside it. *)
Lemma folder_prefix_passes_iff_witness :
  check_folder_prefix
    {[ "folder_prefix" := VString "/hr-docs/" ]}
    {[ "path" := VString "/hr-docs/../legal/contract.docx" ]}
  = Done None.
Proof.
  refine (proj2 (proj1 (folder_prefix_passes_iff _ _ "/hr-docs/"
                          "/hr-docs/../legal/contract.docx" _ _)) _);
    [reflexivity | reflexivity |].
  by exists "../legal/contract.docx".
Defined.

(** ** currencies *)

Lemma currency_allowed_elem_of (currencies : list value) (s : string) :
  currency_allowed currencies s = true ↔ VString s ∈ currencies.
Proof.
  induction currencies as [|c rest IH]; simpl.
  - split; [done | by intros ?%elem_of_nil].
  - rewrite elem_of_cons.
    destruct c as [| | | | | |cStr| |];
      try (rewrite IH; split; [auto | by intros [?|?]]).
    destruct (String.eqb_spec cStr s) as [->|Hne].
    + split; auto.
    + rewrite IH. split; [auto | intros [?|?]; [congruence | done]].
Qed.

(** X2. With a [currencies] list configured and a string [currency]
    sent, the check passes exactly when that very string is an element
    of the list; elements that are not strings never match.  Otherwise
    it fails, so an empty list rejects every currency. *)
Theorem currencies_passes_iff
    (conditions params : gmap string value) (currencies : list value)
    (currencyStr : string) :
  conditions !! "currencies" = Some (VSlice currencies) →
  params !! "currency" = Some (VString currencyStr) →
  (check_currencies conditions params = Done None ↔
   VString currencyStr ∈ currencies) ∧
  (VString currencyStr ∉ currencies →
   checkConditions conditions params ≠ Done None).
Proof.
  intros Hc Hp.
  assert (Hiff : check_currencies conditions params = Done None ↔
                 VString currencyStr ∈ currencies).
  { unfold check_currencies. rewrite Hc, Hp.
    rewrite <- currency_allowed_elem_of.
    by destruct (currency_allowed currencies currencyStr). }
  split; [exact Hiff|].
  intros Hnot Hpass. unfold checkConditions, and_then in Hpass.
  destruct (check_max_amount_returns conditions params) as [[r|] Hm];
    rewrite Hm in Hpass; simpl in Hpass; [done|].
  destruct (check_currencies_returns conditions params) as [[r|] Hcur];
    rewrite Hcur in Hpass; simpl in Hpass; [done|].
  by apply Hnot, Hiff.
Qed.

(** The lower-case code is not the upper-case one. *)
Lemma currencies_passes_iff_witness :
  checkConditions
    {[ "currencies" := VSlice [VString "USD"; VString "EUR"] ]}
    {[ "currency" := VString "usd" ]}
  ≠ Done None.
Proof.
  refine (proj2 (currencies_passes_iff _ _ [VString "USD"; VString "EUR"]
                   "usd" _ _) _); [reflexivity | reflexivity |].
  intros Hin. apply elem_of_cons in Hin as [Hin|Hin]; [discriminate|].
  apply elem_of_cons in Hin as [Hin|Hin]; [discriminate|].
  by apply elem_of_nil in Hin.
Defined.

(** ** What the checks read *)

(** X3. checkConditions reads three keys of the conditions and three
    keys of the parameters and nothing else: two condition maps that
    agree on [max_amount], [currencies] and [folder_prefix], with two
    parameter maps that agree on [amount], [currency] and [path], give
    the same result.  Unrecognised condition keys and other request
    fields have no effect. *)
Theorem checkConditions_reads_three_keys
    (conditions conditions' params params' : gmap string value) :
  conditions !! "max_amount" = conditions' !! "max_amount" →
  conditions !! "currencies" = conditions' !! "currencies" →
  conditions !! "folder_prefix" = conditions' !! "folder_prefix" →
  params !! "amount" = params' !! "amount" →
  params !! "currency" = params' !! "currency" →
  params !! "path" = params' !! "path" →
  checkConditions conditions params = checkConditions conditions' params'.
Proof.
  intros Hm Hc Hf Ha Hcu Hp.
  unfold checkConditions, check_max_amount, check_currencies,
    check_folder_prefix.
  by rewrite Hm, Hc, Hf, Ha, Hcu, Hp.
Qed.

(** A condition key the code does not know and a vendor in the request
    change nothing. *)
Lemma checkConditions_reads_three_keys_witness :
  checkConditions
    (<["max_refunds" := VInt 3]> {[ "max_amount" := VInt 5000 ]})
    (<["vendor_id" := VString "V99"]>
       {[ "amount" := VFloat64 (float64_of_int 50000) ]})
  = checkConditions {[ "max_amount" := VInt 5000 ]}
      {[ "amount" := VFloat64 (float64_of_int 50000) ]}.
Proof.
  apply checkConditions_reads_three_keys; reflexivity.
Defined.

(** ** max_amount on integers *)

(** The float64 of a positive integer below 2^53: the integer shifted to
    53 digits, with the exponent that undoes the shift. *)
Lemma binary_round_canonical (s : bool) (p : positive) :
  (Z.pos p < 2 ^ 53)%Z →
  ∃ m, binary_round 53 1024 s p 0
       = S754_finite s m (Z.pos (digits2_pos p) - 53) ∧
       Z.pos m = (Z.pos p * 2 ^ (53 - Z.pos (digits2_pos p)))%Z.
Proof.
  intros Hp.
  pose proof (digits2_pos_bounds p) as [Hlo Hhi].
  assert (Hd : (Z.pos (digits2_pos p) <= 53)%Z).
  { destruct (Z.le_gt_cases (Z.pos (digits2_pos p)) 53) as [|Hgt]; [done|].
    assert (2 ^ 53 <= 2 ^ (Z.pos (digits2_pos p) - 1))%Z
      by (apply Z.pow_le_mono_r; lia).
    lia. }
  unfold binary_round, shl_align, fexp, emin.
  rewrite Z.add_0_r, Z.sub_0_r, Z.max_l by lia.
  destruct (Z.pos (digits2_pos p) - 53)%Z as [|q|q] eqn:Hq; [| lia |].
  - exists p. rewrite binary_round_aux_exact by lia.
    split; [reflexivity|].
    replace (53 - Z.pos (digits2_pos p))%Z with 0%Z by lia. simpl. lia.
  - exists (Pos.iter xO p q).
    rewrite binary_round_aux_exact; [| rewrite digits2_pos_shift; lia | lia].
    split; [reflexivity|].
    rewrite shift_value. f_equal. f_equal. lia.
Qed.

Lemma digits2_pos_lt (p q : positive) :
  (Z.pos (digits2_pos p) < Z.pos (digits2_pos q))%Z → (Z.pos p < Z.pos q)%Z.
Proof.
  intros Hd.
  pose proof (digits2_pos_bounds p) as [_ Hp].
  pose proof (digits2_pos_bounds q) as [Hq _].
  assert (2 ^ Z.pos (digits2_pos p) <= 2 ^ (Z.pos (digits2_pos q) - 1))%Z
    by (apply Z.pow_le_mono_r; lia).
  lia.
Qed.

(** Two positive integers below 2^53 compare as their float64s do. *)
Lemma SFcompare_binary_round (p q : positive) :
  (Z.pos p < 2 ^ 53)%Z → (Z.pos q < 2 ^ 53)%Z →
  SFcompare (binary_round 53 1024 false p 0) (binary_round 53 1024 false q 0)
  = Some (Z.pos p ?= Z.pos q)%Z ∧
  SFcompare (binary_round 53 1024 true p 0) (binary_round 53 1024 true q 0)
  = Some (Z.neg p ?= Z.neg q)%Z.
Proof.
  intros Hp Hq.
  destruct (binary_round_canonical false p Hp) as (mp & -> & Hmp).
  destruct (binary_round_canonical false q Hq) as (mq & -> & Hmq).
  destruct (binary_round_canonical true p Hp) as (mp' & -> & Hmp').
  destruct (binary_round_canonical true q Hq) as (mq' & -> & Hmq').
  assert (mp' = mp) as -> by lia. assert (mq' = mq) as -> by lia.
  cbn [SFcompare].
  destruct (Z.compare_spec (Z.pos (digits2_pos p) - 53)
              (Z.pos (digits2_pos q) - 53)) as [He|He|He].
  - assert (Hd : Z.pos (digits2_pos p) = Z.pos (digits2_pos q)) by lia.
    rewrite Hd in Hmp.
    assert (Hpow : (0 < 2 ^ (53 - Z.pos (digits2_pos q)))%Z).
    { apply Z.pow_pos_nonneg; [lia|].
      pose proof (digits2_pos_bounds q) as [Hlo _].
      destruct (Z.le_gt_cases (Z.pos (digits2_pos q)) 53); [lia|].
      assert (2 ^ 53 <= 2 ^ (Z.pos (digits2_pos q) - 1))%Z
        by (apply Z.pow_le_mono_r; lia).
      lia. }
    assert (Hcmp : PosDef.Pos.compare_cont Eq mp mq = (Z.pos p ?= Z.pos q)%Z).
    { change (PosDef.Pos.compare_cont Eq mp mq)
        with (Z.pos mp ?= Z.pos mq)%Z.
      rewrite Hmp, Hmq.
      symmetry. apply Zmult_compare_compat_r. lia. }
    rewrite Hcmp. split; reflexivity.
  - pose proof (digits2_pos_lt p q ltac:(lia)) as Hlt.
    split; f_equal; symmetry.
    + by apply Z.compare_lt_iff.
    + apply Z.compare_gt_iff. lia.
  - pose proof (digits2_pos_lt q p ltac:(lia)) as Hlt.
    split; f_equal; symmetry.
    + apply Z.compare_gt_iff. lia.
    + apply Z.compare_lt_iff. lia.
Qed.

(** Integers of magnitude below 2^53 compare as their float64s do. *)
Lemma SFcompare_float64_of_int (a b : Z) :
  (Z.abs a < 2 ^ 53)%Z → (Z.abs b < 2 ^ 53)%Z →
  SFcompare (float64_of_int a) (float64_of_int b) = Some (a ?= b)%Z.
Proof.
  intros Ha Hb. unfold float64_of_int, binary_normalize.
  destruct a as [|p|p], b as [|q|q]; try reflexivity.
  - destruct (binary_round_canonical false q) as (m & -> & _); [lia|done].
  - destruct (binary_round_canonical true q) as (m & -> & _); [lia|done].
  - destruct (binary_round_canonical false p) as (m & -> & _); [lia|done].
  - apply SFcompare_binary_round; lia.
  - destruct (binary_round_canonical false p) as (m & -> & _); [lia|].
    destruct (binary_round_canonical true q) as (m' & -> & _); [lia|done].
  - destruct (binary_round_canonical true p) as (m & -> & _); [lia|done].
  - destruct (binary_round_canonical true p) as (m & -> & _); [lia|].
    destruct (binary_round_canonical false q) as (m' & -> & _); [lia|done].
  - apply SFcompare_binary_round; lia.
Qed.

(** X4. When the configured bound is the integer [bound] and the amount
    sent is the integer [amount], each below 2^53 in magnitude and in any
    of the numeric types the check accepts, the conversion to float64
    loses nothing: the check fails exactly when [amount > bound], with
    the reason that prints [bound]. *)
Theorem max_amount_integers
    (conditions params : gmap string value) (maxAmount sent : value)
    (bound amount : Z) :
  conditions !! "max_amount" = Some maxAmount →
  params !! "amount" = Some sent →
  is_integer maxAmount bound → is_integer sent amount →
  (Z.abs bound < 2 ^ 53)%Z → (Z.abs amount < 2 ^ 53)%Z →
  check_max_amount conditions params
  = (if (bound <? amount)%Z
     then Done (Some ("Amount exceeds max_amount=" +:+ pretty bound))
     else Done None) ∧
  ((bound < amount)%Z →
   checkConditions conditions params
   = Done (Some ("Amount exceeds max_amount=" +:+ pretty bound))).
Proof.
  intros Hc Hp Hm Hs Hb Ha.
  assert (HB : as_float64 maxAmount = Some (float64_of_int bound))
    by (destruct Hm as [-> | [-> | ->]]; reflexivity).
  assert (HA : as_float64 sent = Some (float64_of_int amount))
    by (destruct Hs as [-> | [-> | ->]]; reflexivity).
  assert (Hcheck : check_max_amount conditions params
                   = if (bound <? amount)%Z
                     then Done (Some ("Amount exceeds max_amount="
                                        +:+ pretty bound))
                     else Done None).
  { rewrite (check_max_amount_numeric _ _ _ _ _ _ Hc Hp HA HB).
    unfold float64_gt, SFltb. rewrite SFcompare_float64_of_int by done.
    rewrite fmt_f0_integer by done.
    unfold Z.ltb. by destruct (bound ?= amount)%Z. }
  split; [exact Hcheck|].
  intros Hlt. apply max_amount_error_is_returned. rewrite Hcheck.
  by destruct (Z.ltb_spec bound amount); [|lia].
Qed.

(** One cent of a unit over the bound, in integers. *)
Lemma max_amount_integers_witness :
  checkConditions {[ "max_amount" := VInt 5000 ]}
    {[ "amount" := VFloat64 (float64_of_int 5001) ]}
  = Done (Some "Amount exceeds max_amount=5000").
Proof.
  refine (proj2 (max_amount_integers _ _ (VInt 5000)
                   (VFloat64 (float64_of_int 5001)) 5000 5001
                   _ _ _ _ _ _) _);
    [reflexivity | reflexivity | by left | by right; right
    | reflexivity | reflexivity | reflexivity].
Defined.

(** * Further properties of Evaluate *)

(** ** Reasons *)

Lemma check_currencies_reason conditions params reason :
  check_currencies conditions params = Done (Some reason) →
  reason = "currency must be a string" ∨
  ∃ sent, params !! "currency" = Some (VString sent) ∧
          reason = "Currency " +:+ sent +:+ " not in allowed currencies".
Proof.
  unfold check_currencies.
  destruct (conditions !! "currencies") as [[| | | | | | |currencies|]|];
    try done.
  destruct (params !! "currency") as [[| | | | | |sent| |]|];
    try done; try (intros [= <-]; auto).
  destruct (currency_allowed currencies sent); [done|].
  intros [= <-]. right. by exists sent.
Qed.

(** The error of checkConditions is the error of one of its checks. *)
Lemma checkConditions_error conditions params reason :
  checkConditions conditions params = Done (Some reason) →
  check_max_amount conditions params = Done (Some reason) ∨
  check_currencies conditions params = Done (Some reason) ∨
  check_folder_prefix conditions params = Done (Some reason).
Proof.
  unfold checkConditions, and_then.
  destruct (check_max_amount_returns conditions params) as [[r|] ->];
    simpl; [auto|].
  destruct (check_currencies_returns conditions params) as [[r|] ->];
    simpl; auto.
Qed.

Lemma checkConditions_reason_not_empty conditions params reason :
  checkConditions conditions params = Done (Some reason) → reason ≠ "".
Proof.
  intros [H | [H | H]]%checkConditions_error.
  - apply check_max_amount_reason in H
      as [-> | [-> | (maxAmount & B & _ & _ & ->)]]; done.
  - apply check_currencies_reason in H as [-> | (sent & _ & ->)]; done.
  - apply check_folder_prefix_reason in H as [-> | (prefix & _ & ->)]; done.
Qed.

Lemma evaluate_locked_allowed_reason
    store order agentID tool action params reason :
  evaluate_locked store order agentID tool action params
  = Done (true, reason) →
  reason = "".
Proof.
  rewrite evaluate_locked_first_match.
  destruct (first_match _ _ _ _) as [allow|]; [|done].
  unfold verdict. destruct (Conditions allow) as [conditions|];
    [|by intros [= <-]].
  destruct (checkConditions_returns conditions params) as [[r|] ->]; simpl;
    [done | by intros [= <-]].
Qed.

(** X5. Evaluate always returns a decision, and the reason tells which:
    the reason is empty exactly when the call is allowed.  A denial always
    carries a reason that is not empty. *)
Theorem Evaluate_reason_empty_iff_allowed
    (pe : PolicyEngine) (order : list string)
    (agentID tool action : string) (params : gmap string value) :
  ∃ allowed reason,
    fst (Evaluate pe order agentID tool action params)
    = Done (allowed, reason) ∧
    (allowed = true ↔ reason = "").
Proof.
  simpl. rewrite evaluate_locked_first_match.
  destruct (first_match _ _ _ _) as [allow|].
  - unfold verdict. destruct (Conditions allow) as [conditions|].
    + destruct (checkConditions_returns conditions params) as [[r|] Hc];
        rewrite Hc; simpl.
      * exists false, r. split; [done|].
        apply checkConditions_reason_not_empty in Hc. split; done.
      * by exists true, "".
    + by exists true, "".
  - exists false, (not_allowed agentID tool action). split; [done|].
    split; [done|]. unfold not_allowed. done.
Qed.

(** ** The order of the iteration *)

(** When the policies of all keys but [k] have no allowance for the
    call, the first match is the one of the policy under [k], if the
    iteration comes to it. *)
Lemma first_match_only_source store k order agentID tool action :
  (∀ k' policy, store !! k' = Some policy → k' ≠ k →
                first_match [policy] agentID tool action = None) →
  first_match (range_policies store order) agentID tool action
  = if decide (k ∈ order)
    then policy ← store !! k; first_match [policy] agentID tool action
    else None.
Proof.
  intros Hothers.
  induction order as [|k' rest IH]; [done|].
  rewrite range_policies_cons.
  destruct (decide (k' = k)) as [->|Hne].
  - rewrite decide_True by (apply elem_of_cons; by left).
    destruct (store !! k) as [policy|] eqn:Hk; simpl.
    + rewrite (first_match_cons policy (range_policies store rest)).
      destruct (first_match [policy] agentID tool action) eqn:Hfm; [done|].
      rewrite IH. destruct (decide (k ∈ rest)); [|done].
      simpl. exact Hfm.
    + rewrite IH. by destruct (decide (k ∈ rest)).
  - assert (Hrest : first_match
                      (match store !! k' with
                       | Some policy => policy :: range_policies store rest
                       | None => range_policies store rest
                       end) agentID tool action
                    = first_match (range_policies store rest)
                        agentID tool action).
    { destruct (store !! k') as [policy|] eqn:Hk'; [|done].
      rewrite (first_match_cons policy (range_policies store rest)).
      by rewrite (Hothers k' policy Hk' Hne). }
    rewrite Hrest, IH.
    destruct (decide (k ∈ rest)) as [Hin|Hnin].
    + by rewrite decide_True by (apply elem_of_cons; by right).
    + rewrite decide_False; [done|].
      intros [?|?]%elem_of_cons; done.
Qed.

Lemma iteration_order_elem_of store order k policy :
  iteration_order store order → store !! k = Some policy → k ∈ order.
Proof.
  intros Horder Hk. unfold iteration_order in Horder. rewrite Horder.
  apply list_elem_of_fmap. exists (k, policy). split; [done|].
  by apply elem_of_map_to_list.
Qed.

(** X6. The result of Evaluate does not depend on the order of the map
    iteration when at most one source has an allowance for the agent,
    the tool and the action: any two iteration orders of the store give
    the same result. *)
Theorem Evaluate_order_irrelevant
    (pe : PolicyEngine) (k : string) (order order' : list string)
    (agentID tool action : string) (params : gmap string value) :
  iteration_order (policies pe) order →
  iteration_order (policies pe) order' →
  (∀ k' policy, policies pe !! k' = Some policy → k' ≠ k →
                first_match [policy] agentID tool action = None) →
  fst (Evaluate pe order agentID tool action params)
  = fst (Evaluate pe order' agentID tool action params).
Proof.
  intros Ho Ho' Hothers. simpl.
  rewrite !evaluate_locked_first_match.
  rewrite !(first_match_only_source _ k) by done.
  destruct (policies pe !! k) as [policy|] eqn:Hk.
  - rewrite !decide_True by (by eapply iteration_order_elem_of). done.
  - simpl. by repeat destruct (decide _).
Qed.

(** The HR agent has its allowance in the README's document only: both
    orders of the two documents allow the read. *)
Lemma Evaluate_order_irrelevant_witness :
  fst (Evaluate example_engine ["policies/b.yaml"; "policies/a.yaml"]
         "hr-agent" "files" "read"
         {[ "path" := VString "/hr-docs/employee1.txt" ]})
  = Done (true, "").
Proof.
  assert (Ho : iteration_order (policies example_engine)
                 ["policies/b.yaml"; "policies/a.yaml"]).
  { unfold iteration_order. vm_compute.
    first [ reflexivity | apply perm_swap ]. }
  assert (Ho' : iteration_order (policies example_engine)
                  ["policies/a.yaml"; "policies/b.yaml"]).
  { unfold iteration_order. vm_compute.
    first [ reflexivity | apply perm_swap ]. }
  rewrite (Evaluate_order_irrelevant example_engine "policies/a.yaml"
             ["policies/b.yaml"; "policies/a.yaml"]
             ["policies/a.yaml"; "policies/b.yaml"]
             "hr-agent" "files" "read" _ Ho Ho').
  - vm_compute. reflexivity.
  - intros k' policy Hk Hne. unfold example_engine in Hk. simpl in Hk.
    apply lookup_insert_Some in Hk as [[<- _] | [_ Hk]]; [done|].
    apply lookup_singleton_Some in Hk as [_ <-]. reflexivity.
Defined.

(** ** A request without the checked parameters *)

(** X7. Conditions constrain only what is sent: for a request with no
    [amount], no [currency] and no [path], Evaluate allows the call as
    soon as the iteration encounters an allowance for the agent, the
    tool and the action, whatever that allowance's conditions are, and
    denies it with the "not allowed" reason otherwise. *)
Theorem Evaluate_without_checked_parameters
    (pe : PolicyEngine) (order : list string)
    (agentID tool action : string) (params : gmap string value) :
  params !! "amount" = None →
  params !! "currency" = None →
  params !! "path" = None →
  fst (Evaluate pe order agentID tool action params)
  = match first_match (range_policies (policies pe) order)
            agentID tool action with
    | Some _ => Done (true, "")
    | None => Done (false, not_allowed agentID tool action)
    end.
Proof.
  intros Ha Hc Hp. simpl. rewrite evaluate_locked_first_match.
  destruct (first_match _ _ _ _) as [allow|]; [|done].
  unfold verdict. destruct (Conditions allow) as [conditions|]; [|done].
  unfold checkConditions.
  rewrite check_max_amount_absent, check_currencies_absent,
    check_folder_prefix_absent by (by left).
  reflexivity.
Qed.

(** The finance agent of the README creates a payment and sends no
    amount. *)
Lemma Evaluate_without_checked_parameters_witness :
  fst (Evaluate example_engine ["policies/a.yaml"; "policies/b.yaml"]
         "finance-agent" "payments" "create"
         {[ "vendor_id" := VString "V99" ]})
  = Done (true, "").
Proof.
  rewrite Evaluate_without_checked_parameters; reflexivity.
Defined.

(** * Further properties of loading and watching *)

(** ** validatePolicy *)

Lemma validate_allow_None allows :
  validate_allow allows = None ↔
  Forall (λ allow, Tool allow ≠ "" ∧ Actions allow ≠ []) allows.
Proof.
  induction allows as [|allow rest IH]; simpl.
  - split; [constructor | done].
  - rewrite Forall_cons.
    destruct (String.eqb_spec (Tool allow) "") as [Ht|Ht].
    + split; [done | by intros [[? _] _]].
    + destruct (Actions allow) as [|a actions] eqn:Ha; simpl.
      * split; [done | by intros [[_ ?] _]].
      * rewrite IH. split; [by intros ? | by intros [_ ?]].
Qed.

Lemma validate_agents_None agents :
  validate_agents agents = None ↔
  Forall (λ agent,
            ID agent ≠ "" ∧
            Forall (λ allow, Tool allow ≠ "" ∧ Actions allow ≠ [])
              (Allow agent)) agents.
Proof.
  induction agents as [|agent rest IH]; simpl.
  - split; [constructor | done].
  - rewrite Forall_cons.
    destruct (String.eqb_spec (ID agent) "") as [Hid|Hid].
    + split; [done | by intros [[? _] _]].
    + destruct (validate_allow (Allow agent)) as [err|] eqn:Hv.
      * split; [done|]. intros [[_ Hall] _].
        apply validate_allow_None in Hall. congruence.
      * apply validate_allow_None in Hv. rewrite IH.
        split; [by intros ? | by intros [_ ?]].
Qed.

(** X8. validatePolicy accepts a document exactly when it has a version
    that is not empty, every agent has an ID that is not empty, and
    every allowance names a tool and at least one action.  A document
    with a version and no agents is valid. *)
Theorem validatePolicy_accepts_iff (p : Policy) :
  validatePolicy p = None ↔ well_formed p.
Proof.
  unfold validatePolicy, well_formed.
  destruct (String.eqb_spec (Version p) "") as [Hv|Hv].
  - split; [done | by intros [? _]].
  - rewrite validate_agents_None. split; [by intros ? | by intros [_ ?]].
Qed.

(** X9. validatePolicy never looks at the conditions: a document is
    accepted or rejected, with the same error, whatever stands under
    [conditions] in its allowances. *)
Theorem validatePolicy_ignores_conditions
    (f : ToolAllowance → option (gmap string value)) (p : Policy) :
  validatePolicy (map_conditions f p) = validatePolicy p.
Proof.
  unfold validatePolicy, map_conditions. simpl.
  destruct (String.eqb (Version p) ""); [done|].
  induction (Agents p) as [|agent rest IH]; simpl; [done|].
  destruct (String.eqb (ID agent) ""); [done|].
  assert (Hallow : validate_allow
                     ((λ allow, {| Tool := Tool allow;
                                   Actions := Actions allow;
                                   Conditions := f allow |})
                        <$> Allow agent)
                   = validate_allow (Allow agent)).
  { induction (Allow agent) as [|allow allows IHa]; simpl; [done|].
    destruct (String.eqb (Tool allow) ""); [done|].
    destruct (length (Actions allow) =? 0)%nat; [done | exact IHa]. }
  rewrite Hallow. destruct (validate_allow (Allow agent)); [done | exact IH].
Qed.

(** X10. In a store of valid policies no allowance is for the empty
    tool name, so a call that names no tool is denied by Evaluate, for
    every agent, action, parameters and iteration order. *)
Theorem Evaluate_empty_tool_denied
    (pe : PolicyEngine) (order : list string)
    (agentID action : string) (params : gmap string value) :
  store_valid (policies pe) →
  fst (Evaluate pe order agentID "" action params)
  = Done (false, not_allowed agentID "" action).
Proof.
  intros Hvalid. simpl.
  rewrite evaluate_locked_first_match, not_granted_first_match; [done|].
  intros (k & policy & agentPolicy & allow & Hk & Ha & _ & Hin & [Ht _]).
  apply Hvalid in Hk. unfold validatePolicy in Hk.
  destruct (String.eqb (Version policy) ""); [done|].
  apply validate_agents_None in Hk as Hagents.
  rewrite Forall_forall in Hagents.
  destruct (Hagents agentPolicy Ha) as [_ Hallows].
  rewrite Forall_forall in Hallows.
  by destruct (Hallows allow Hin) as [Htool _].
Qed.

Lemma example_engine_valid : store_valid (policies example_engine).
Proof.
  intros k policy Hk. unfold example_engine in Hk. simpl in Hk.
  apply lookup_insert_Some in Hk as [[_ <-] | [_ Hk]]; [reflexivity|].
  apply lookup_singleton_Some in Hk as [_ <-]. reflexivity.
Qed.

Lemma Evaluate_empty_tool_denied_witness :
  fst (Evaluate example_engine ["policies/a.yaml"; "policies/b.yaml"]
         "finance-agent" "" "create" ∅)
  = Done (false, "Agent finance-agent is not allowed to perform action create on tool ").
Proof.
  exact (Evaluate_empty_tool_denied example_engine _ "finance-agent"
           "create" ∅ example_engine_valid).
Defined.

(** ** Starting the engine *)

Section LoadingFacts.

Variable yaml_Unmarshal : string → result Policy.
Variable filepath_Join : string → string → string.

(** X11. NewPolicyEngine returns an engine exactly when the watcher can
    be created, the directory can be listed and the watcher can be put
    on it.  What the files hold plays no part: no file that is missing,
    unreadable, malformed or invalid makes the start fail. *)
Theorem NewPolicyEngine_succeeds_iff (fs : FileSystem) (policiesDir : string) :
  (∃ pe, NewPolicyEngine yaml_Unmarshal filepath_Join fs policiesDir = Ok pe)
  ↔
  fsnotify_NewWatcher fs = None ∧
  (∃ entries, os_ReadDir fs policiesDir = ReadDir_ok entries) ∧
  fsnotify_Add fs policiesDir = None.
Proof.
  unfold NewPolicyEngine, loadAllPolicies.
  destruct (fsnotify_NewWatcher fs) as [err|].
  { split; [by intros [pe ?] | by intros [? _]]. }
  simpl.
  destruct (os_ReadDir fs policiesDir) as [entries|err|err].
  - destruct (fsnotify_Add fs policiesDir) as [err|].
    + split; [by intros [pe ?] | by intros (_ & _ & ?)].
    + split; [|by eexists]. intros _. split; [done|]. split; [|done].
      by exists entries.
  - split; [by intros [pe ?] | by intros (_ & [entries ?] & _)].
  - split; [by intros [pe ?] | by intros (_ & [entries ?] & _)].
Qed.

(** ** Loading again *)

(** X12. Loading a file a second time, with the file unchanged, changes
    nothing: the engine after the second load is the engine after the
    first, and the second load returns the same error or none.  The same
    holds for the watcher handling the same event twice. *)
Theorem reload_idempotent (fs : FileSystem) (pe : PolicyEngine) :
  (∀ filePath,
     loadPolicyFile yaml_Unmarshal fs
       (snd (loadPolicyFile yaml_Unmarshal fs pe filePath)) filePath
     = loadPolicyFile yaml_Unmarshal fs pe filePath) ∧
  (∀ event,
     handle_event yaml_Unmarshal fs
       (handle_event yaml_Unmarshal fs pe event) event
     = handle_event yaml_Unmarshal fs pe event).
Proof.
  assert (Hload : ∀ pe filePath,
    loadPolicyFile yaml_Unmarshal fs
      (snd (loadPolicyFile yaml_Unmarshal fs pe filePath)) filePath
    = loadPolicyFile yaml_Unmarshal fs pe filePath).
  { intros pe0 filePath.
    destruct (publishable yaml_Unmarshal fs filePath) as [policy|] eqn:Hp.
    - rewrite !(loadPolicyFile_success _ _ _ _ _ Hp). simpl.
      unfold with_mu, with_policies. simpl. by rewrite insert_insert_eq.
    - destruct (loadPolicyFile_failure yaml_Unmarshal fs pe0 filePath Hp)
        as [err Hl].
      rewrite Hl. simpl. exact Hl. }
  split; [apply Hload|].
  intros event. unfold handle_event.
  destruct (has_op (event_Op event) fsnotify_Write
            || has_op (event_Op event) fsnotify_Create) eqn:Hw;
    destruct (has_op (event_Op event) fsnotify_Remove) eqn:Hr; simpl.
  - destruct (publishable yaml_Unmarshal fs (event_Name event))
      as [policy|] eqn:Hp.
    + rewrite !(loadPolicyFile_success _ _ _ _ _ Hp). simpl.
      unfold with_mu, with_policies. simpl.
      by rewrite !delete_insert_eq, delete_delete_eq.
    + destruct (loadPolicyFile_failure yaml_Unmarshal fs pe
                  (event_Name event) Hp) as [err Hl].
      rewrite Hl. simpl.
      destruct (loadPolicyFile_failure yaml_Unmarshal fs
                  (with_mu Unlock
                     (with_policies (delete (event_Name event))
                        (with_mu Lock pe)))
                  (event_Name event) Hp) as [err' Hl'].
      rewrite Hl'. simpl.
      unfold with_mu, with_policies. simpl. by rewrite delete_delete_eq.
  - by rewrite Hload.
  - unfold with_mu, with_policies. simpl. by rewrite delete_delete_eq.
  - reflexivity.
Qed.

(** X13. The store after the loop over a directory does not depend on
    the order in which the entries are listed, and listing an entry
    twice changes nothing. *)
Theorem load_entries_order_irrelevant
    (fs : FileSystem) (entries entries' : list DirEntry)
    (pe : PolicyEngine) :
  (∀ entry, entry ∈ entries ↔ entry ∈ entries') →
  policies (load_entries yaml_Unmarshal filepath_Join fs entries pe)
  = policies (load_entries yaml_Unmarshal filepath_Join fs entries' pe).
Proof.
  intros Hsame. apply map_eq. intros k.
  rewrite !load_entries_lookup.
  assert (Hdocs : k ∈ documents filepath_Join (baseDir pe) entries ↔
                  k ∈ documents filepath_Join (baseDir pe) entries').
  { unfold documents. rewrite !list_elem_of_fmap.
    split; intros (entry & -> & [Hs Hin]%list_elem_of_filter);
      exists entry; (split; [done|]); apply list_elem_of_filter;
      (split; [done|]); by apply Hsame. }
  destruct (decide (k ∈ documents filepath_Join (baseDir pe) entries))
    as [Hin|Hnin].
  - by rewrite decide_True by (by apply Hdocs).
  - by rewrite decide_False by (by rewrite <- Hdocs).
Qed.

End LoadingFacts.

(** The listing of the example read backwards gives the same store. *)
Lemma load_entries_order_irrelevant_witness :
  policies (load_entries example_yaml example_join example_fs
              (reverse [ {| entry_Name := "a.yaml"; entry_IsDir := false |};
                         {| entry_Name := "bad.yml"; entry_IsDir := false |} ])
              example_engine)
  = policies (load_entries example_yaml example_join example_fs
                [ {| entry_Name := "a.yaml"; entry_IsDir := false |};
                  {| entry_Name := "bad.yml"; entry_IsDir := false |} ]
                example_engine).
Proof.
  apply load_entries_order_irrelevant.
  intros entry. apply elem_of_reverse.
Defined.

(** ** The bits of an event *)

(** [op&flag == flag] for a flag of one bit tests that bit. *)
Lemma has_op_testbit (op i : Z) :
  (0 <= i)%Z → has_op op (2 ^ i) = Z.testbit op i.
Proof.
  intros Hi. unfold has_op.
  destruct (Z.testbit op i) eqn:Hbit.
  - apply Z.eqb_eq. apply Z.bits_inj'. intros j Hj.
    rewrite Z.land_spec, Z.pow2_bits_eqb by done.
    destruct (Z.eqb_spec i j) as [->|Hne]; [by rewrite Hbit|].
    apply andb_false_r.
  - apply Z.eqb_neq. intros Heq.
    assert (Z.testbit (Z.land op (2 ^ i)) i = true) as Habs.
    { rewrite Heq, Z.pow2_bits_eqb by done. apply Z.eqb_refl. }
    rewrite Z.land_spec, Hbit in Habs. done.
Qed.

Section WatchingFacts.

Variable yaml_Unmarshal : string → result Policy.
Variable filepath_Join : string → string → string.

(** X14. An event that carries none of Create, Write and Remove, such as
    a Rename or a Chmod or both, leaves the engine exactly as it was:
    nothing is loaded and nothing is deleted, so the grants of a file
    that was renamed away stay in the store. *)
Theorem rename_chmod_ignored
    (fs : FileSystem) (pe : PolicyEngine) (event : Event) :
  Z.testbit (event_Op event) 0 = false →
  Z.testbit (event_Op event) 1 = false →
  Z.testbit (event_Op event) 2 = false →
  handle_event yaml_Unmarshal fs pe event = pe.
Proof.
  intros Hc Hw Hr. unfold handle_event.
  change fsnotify_Create with (2 ^ 0)%Z.
  change fsnotify_Write with (2 ^ 1)%Z.
  change fsnotify_Remove with (2 ^ 2)%Z.
  rewrite !has_op_testbit by lia. by rewrite Hc, Hw, Hr.
Qed.

(** X15. The loop of the watcher handles the deliveries in turn: an
    error from the watcher changes nothing and does not end the loop;
    once a channel is closed nothing that arrives later is handled; and
    as long as no channel is closed, handling one run of deliveries and
    then another is handling the two in a row. *)
Theorem watchForChanges_loop
    (before later : list delivery) (pe : PolicyEngine) :
  (∀ err,
     watchForChanges yaml_Unmarshal (before ++ on_Errors err :: later) pe
     = watchForChanges yaml_Unmarshal (before ++ later) pe) ∧
  (∀ closed,
     closes closed = true →
     watchForChanges yaml_Unmarshal (before ++ closed :: later) pe
     = watchForChanges yaml_Unmarshal before pe) ∧
  (Forall (λ d, closes d = false) before →
   watchForChanges yaml_Unmarshal (before ++ later) pe
   = watchForChanges yaml_Unmarshal later
       (watchForChanges yaml_Unmarshal before pe)).
Proof.
  split; [|split].
  - intros err. revert pe.
    induction before as [|[fs event| |err'|] rest IH]; intros pe; simpl;
      done.
  - intros closed Hclosed. revert pe.
    induction before as [|[fs event| |err'|] rest IH]; intros pe; simpl;
      try done.
    by destruct closed.
  - intros Hopen. revert pe.
    induction Hopen as [|d rest Hd _ IH]; intros pe; [done|].
    destruct d as [fs event| |err|]; simpl in *; done.
Qed.

(** X16. The watcher does not look at the name of the file, the load of
    the directory does.  Take a file that holds a valid policy but is not
    among the documents of the directory, because it has another
    extension than .yaml and .yml: the engine that NewPolicyEngine
    returns has no entry for it, and a write or create event for its
    path, on the same file system, publishes it. *)
Theorem watcher_loads_any_name
    (fs : FileSystem) (policiesDir : string) (entries : list DirEntry)
    (pe : PolicyEngine) (event : Event) (policy : Policy) :
  NewPolicyEngine yaml_Unmarshal filepath_Join fs policiesDir = Ok pe →
  os_ReadDir fs policiesDir = ReadDir_ok entries →
  event_Name event ∉ documents filepath_Join policiesDir entries →
  publishable yaml_Unmarshal fs (event_Name event) = Some policy →
  has_op (event_Op event) fsnotify_Write
  || has_op (event_Op event) fsnotify_Create = true →
  has_op (event_Op event) fsnotify_Remove = false →
  policies pe !! event_Name event = None ∧
  policies (handle_event yaml_Unmarshal fs pe event) !! event_Name event
  = Some policy ∧
  ∀ k, k ≠ event_Name event →
       policies (handle_event yaml_Unmarshal fs pe event) !! k
       = policies pe !! k.
Proof.
  intros Hnew Hdir Hnot Hp Hw Hr.
  assert (Hstore : ∀ k, policies pe !! k
                        = if decide (k ∈ documents filepath_Join policiesDir
                                           entries)
                          then publishable yaml_Unmarshal fs k else None).
  { unfold NewPolicyEngine, loadAllPolicies in Hnew.
    destruct (fsnotify_NewWatcher fs); [done|]. simpl in Hnew.
    rewrite Hdir in Hnew.
    destruct (fsnotify_Add fs policiesDir); [done|].
    injection Hnew as <-. intros k.
    rewrite load_entries_lookup. simpl. rewrite lookup_empty.
    destruct (decide _); [|done].
    by destruct (publishable yaml_Unmarshal fs k). }
  assert (Hafter : policies (handle_event yaml_Unmarshal fs pe event)
                   = <[event_Name event := policy]> (policies pe)).
  { unfold handle_event. rewrite Hw, Hr.
    by rewrite (loadPolicyFile_success _ _ _ _ _ Hp). }
  split; [|split].
  - by rewrite Hstore, decide_False.
  - rewrite Hafter. apply lookup_insert_eq.
  - intros k Hk. rewrite Hafter. by apply lookup_insert_ne.
Qed.

End WatchingFacts.

Lemma rename_chmod_ignored_witness :
  handle_event example_yaml example_fs example_engine
    {| event_Name := "policies/a.yaml";
       event_Op := Z.lor fsnotify_Rename fsnotify_Chmod |}
  = example_engine.
Proof.
  apply rename_chmod_ignored; reflexivity.
Defined.

Lemma watchForChanges_loop_witness :
  watchForChanges example_yaml
    ([on_Errors "queue overflow"] ++
     [on_Events example_fs
        {| event_Name := "policies/b.yaml"; event_Op := fsnotify_Remove |}])
    example_engine
  = watchForChanges example_yaml
      [on_Events example_fs
         {| event_Name := "policies/b.yaml"; event_Op := fsnotify_Remove |}]
      (watchForChanges example_yaml [on_Errors "queue overflow"]
         example_engine).
Proof.
  apply (watchForChanges_loop example_yaml [on_Errors "queue overflow"]).
  by repeat constructor.
Defined.

(** The text file of a directory like the one of the example holds the
    open document: the start passes it over, the watcher publishes
    it. *)
Lemma watcher_loads_any_name_witness :
  let fs := {| os_ReadDir := os_ReadDir example_fs;
               os_ReadFile := λ _, Ok "open";
               fsnotify_NewWatcher := None;
               fsnotify_Add := λ _, None |} in
  ∃ pe,
    NewPolicyEngine example_yaml example_join fs "policies" = Ok pe ∧
    policies pe !! "policies/notes.txt" = None ∧
    policies (handle_event example_yaml fs pe
                {| event_Name := "policies/notes.txt";
                   event_Op := fsnotify_Write |}) !! "policies/notes.txt"
    = Some open_policy.
Proof.
  intros fs. eexists. split; [reflexivity|].
  refine (let H := watcher_loads_any_name example_yaml example_join fs
                     "policies" _ _
                     {| event_Name := "policies/notes.txt";
                        event_Op := fsnotify_Write |} open_policy
                     eq_refl eq_refl _ eq_refl eq_refl eq_refl in
          conj (proj1 H) (proj1 (proj2 H))).
  intros Hin. apply list_elem_of_In in Hin. vm_compute in Hin.
  destruct Hin as [Hin | [Hin | [Hin | []]]]; discriminate Hin.
Defined.

(** ** Which entries of the directory are loaded *)

Lemma has_separator_append (s t : string) :
  has_separator (s +:+ t) = has_separator s || has_separator t.
Proof.
  induction s as [|c s IH]; simpl; [done|].
  by rewrite IH, orb_assoc.
Qed.

Lemma filepath_Ext_cons (c : ascii) (rest : string) :
  has_separator rest = false →
  filepath_Ext (String c rest)
  = if negb (String.eqb (filepath_Ext rest) "") then filepath_Ext rest
    else if Ascii.eqb c "." then String c rest
    else "".
Proof. intros Hrest. simpl. by rewrite Hrest. Qed.

(** The extension of a name without separators is [ext] exactly when the
    name ends in [ext], for an [ext] that is its own extension. *)
Lemma filepath_Ext_suffix (ext name : string) :
  filepath_Ext ext = ext → ext ≠ "" → has_separator name = false →
  filepath_Ext name = ext ↔ ∃ stem, name = stem +:+ ext.
Proof.
  intros Hext Hne. induction name as [|c rest IH]; intros Hsep.
  - split; [by intros <- |].
    intros [stem Hstem]. destruct stem; simpl in Hstem; [done | discriminate].
  - simpl in Hsep. apply orb_false_iff in Hsep as [Hc Hrest].
    specialize (IH Hrest). split.
    + rewrite filepath_Ext_cons by done.
      destruct (String.eqb_spec (filepath_Ext rest) "") as [Hempty|Hfull];
        simpl.
      * destruct (Ascii.eqb c "."); [|by intros <-].
        intros <-. by exists "".
      * intros [stem ->]%IH. by exists (String c stem).
    + intros [stem Hstem]. destruct stem as [|c' stem]; simpl in Hstem.
      * by rewrite Hstem.
      * injection Hstem as <- ->.
        assert (Hrest_ext : filepath_Ext (stem +:+ ext) = ext)
          by (apply IH; by exists stem).
        rewrite filepath_Ext_cons, Hrest_ext by done.
        by destruct (String.eqb_spec ext "").
Qed.

Section EntryFacts.

Variable yaml_Unmarshal : string → result Policy.
Variable filepath_Join : string → string → string.

(** X17. The load of the directory takes an entry exactly when it is not
    a directory and its name ends in ".yaml" or in ".yml", in these very
    letters; and the store then holds, under the entry's path, what the
    file publishes, if it publishes anything. *)
Theorem directory_entry_loaded_iff
    (fs : FileSystem) (entry : DirEntry) (pe : PolicyEngine) :
  has_separator (entry_Name entry) = false →
  (skipped entry = false ↔
   entry_IsDir entry = false ∧
   ∃ stem, entry_Name entry = stem +:+ ".yaml" ∨
           entry_Name entry = stem +:+ ".yml") ∧
  (skipped entry = false →
   policies (load_entries yaml_Unmarshal filepath_Join fs [entry] pe)
   = match publishable yaml_Unmarshal fs
             (filepath_Join (baseDir pe) (entry_Name entry)) with
     | Some policy =>
         <[filepath_Join (baseDir pe) (entry_Name entry) := policy]>
           (policies pe)
     | None => policies pe
     end).
Proof.
  intros Hsep. split.
  - unfold skipped. rewrite orb_false_iff, andb_false_iff, !negb_false_iff.
    rewrite !String.eqb_eq.
    rewrite (filepath_Ext_suffix ".yaml") by done.
    rewrite (filepath_Ext_suffix ".yml") by done.
    split.
    + intros [Hd [[stem ?] | [stem ?]]]; (split; [done|]); exists stem; auto.
    + intros [Hd [stem [? | ?]]]; (split; [done|]);
        [left | right]; by exists stem.
  - intros Hs. simpl. rewrite Hs. apply loadPolicyFile_policies.
Qed.

End EntryFacts.

Lemma directory_entry_loaded_iff_witness :
  skipped {| entry_Name := "a.yaml"; entry_IsDir := false |} = false.
Proof.
  apply (proj1 (directory_entry_loaded_iff example_yaml example_join
                  example_fs {| entry_Name := "a.yaml"; entry_IsDir := false |}
                  example_engine eq_refl)).
  split; [reflexivity|]. exists "a". by left.
Defined.

(** ** A reload takes effect *)

Section ReloadFacts.

Variable yaml_Unmarshal : string → result Policy.

(** X23. After a load that succeeds, Evaluate answers from the document
    just loaded: when no other source has an allowance for the agent,
    the tool and the action, the call is decided by the first such
    allowance of the new document, and denied with the "not allowed"
    reason when the new document has none, whatever the replaced
    document granted and whatever the order of the iteration. *)
Theorem reload_takes_effect
    (fs : FileSystem) (pe : PolicyEngine) (filePath : string)
    (policy : Policy) (order : list string)
    (agentID tool action : string) (params : gmap string value) :
  publishable yaml_Unmarshal fs filePath = Some policy →
  (∀ k other, policies pe !! k = Some other → k ≠ filePath →
              first_match [other] agentID tool action = None) →
  iteration_order
    (policies (snd (loadPolicyFile yaml_Unmarshal fs pe filePath))) order →
  fst (Evaluate (snd (loadPolicyFile yaml_Unmarshal fs pe filePath)) order
         agentID tool action params)
  = match first_match [policy] agentID tool action with
    | Some allow => verdict allow params
    | None => Done (false, not_allowed agentID tool action)
    end.
Proof.
  intros Hp Hothers Horder. simpl.
  rewrite loadPolicyFile_policies, Hp in *.
  rewrite evaluate_locked_first_match.
  rewrite (first_match_only_source _ filePath).
  - rewrite decide_True.
    + by rewrite lookup_insert_eq.
    + eapply iteration_order_elem_of; [done | apply lookup_insert_eq].
  - intros k other Hk Hne. rewrite lookup_insert_ne in Hk by done.
    by apply (Hothers k other).
Qed.

End ReloadFacts.

(** The README's document is edited into the open one: the payment that
    was blocked is now allowed. *)
Lemma reload_takes_effect_witness :
  let fs := {| os_ReadDir := os_ReadDir example_fs;
               os_ReadFile := λ _, Ok "open";
               fsnotify_NewWatcher := None;
               fsnotify_Add := λ _, None |} in
  let pe := {| mu := {| readers := 0; writer := false |};
               policies := readme_store;
               baseDir := "policies" |} in
  fst (Evaluate (snd (loadPolicyFile example_yaml fs pe "policies/a.yaml"))
         ["policies/a.yaml"] "finance-agent" "payments" "create"
         blocked_params)
  = Done (true, "").
Proof.
  intros fs pe.
  rewrite (reload_takes_effect example_yaml fs pe "policies/a.yaml"
             open_policy ["policies/a.yaml"]).
  - reflexivity.
  - reflexivity.
  - intros k other Hk Hne. simpl in Hk. unfold readme_store in Hk.
    apply lookup_singleton_Some in Hk as [<- _]. done.
  - unfold iteration_order. vm_compute. reflexivity.
Defined.

(** * Further properties of the gateway *)

Lemma split_slash_plain (s : string) :
  has_separator s = false → split_slash s = [s].
Proof.
  induction s as [|c s IH]; simpl; [done|].
  intros [Hc Hs]%orb_false_iff. rewrite Hc, (IH Hs). done.
Qed.

Lemma split_slash_segment (s t : string) :
  has_separator s = false →
  split_slash (s +:+ "/" +:+ t) = s :: split_slash t.
Proof.
  induction s as [|c s IH]; simpl; [done|].
  intros [Hc Hs]%orb_false_iff. rewrite Hc. by rewrite (IH Hs).
Qed.

(** The path of a tool and an action comes apart into the two. *)
Lemma path_parts (tool action : string) :
  has_separator tool = false → has_separator action = false →
  split_slash (trim_slash ("/tools/" +:+ tool +:+ "/" +:+ action))
  = ["tools"; tool; action].
Proof.
  intros Ht Ha.
  change (trim_slash ("/tools/" +:+ tool +:+ "/" +:+ action))
    with ("tools" +:+ "/" +:+ (tool +:+ "/" +:+ action)).
  rewrite split_slash_segment by done.
  rewrite split_slash_segment by done.
  by rewrite split_slash_plain.
Qed.

Section GatewayFacts.

Variable json_Unmarshal : string → result (gmap string value).

(** X18. A request to /tools/<tool>/<action>, with a tool and an action
    that hold no slash, an agent and a body that decodes, is evaluated
    for exactly that agent, tool, action and the decoded parameters, and
    answered by what Evaluate says: a denial becomes the 403 with
    Evaluate's reason; an allowed call to a registered tool becomes the
    call to <base address>/<action> with the body as it was received,
    whose status, header and body are handed back as they come, whatever
    the status; when no response comes the answer is the 500 "Failed to
    forward request", and when the copy of the body breaks off the
    status stays the one of the service; an allowed call to a tool
    without a base address becomes the 400 "Unknown tool". *)
Theorem HandleRequest_tool_action
    (client_Do : string → string → Downstream)
    (g : Gateway) (order : list string) (r : Request)
    (tool action agent bodyBytes : string) (params : gmap string value) :
  has_separator tool = false → has_separator action = false →
  URL_Path r = "/tools/" +:+ tool +:+ "/" +:+ action →
  Header_Get (Header r) "X-Agent-ID" = agent → agent ≠ "" →
  Body r = Ok bodyBytes →
  (bodyBytes = "" ∧ params = ∅) ∨
  (bodyBytes ≠ "" ∧ json_Unmarshal bodyBytes = Ok params) →
  fst (HandleRequest json_Unmarshal client_Do g order r)
  = match fst (Evaluate (policyEngine g) order agent tool action params) with
    | Done (false, reason) => Done (policy_violation reason)
    | Done (true, _) =>
        match toolURLs g !! tool with
        | Some toolURL =>
            match client_Do (toolURL +:+ "/" +:+ action) bodyBytes with
            | response status header copied None =>
                Done {| StatusCode := status; ResponseHeader := header;
                        Written := body_text copied |}
            | response status header copied (Some err) =>
                Done {| StatusCode := status; ResponseHeader := header;
                        Written :=
                          body_text (copied +:+ "Failed to forward request: "
                                       +:+ err +:+ newline) |}
            | no_response err =>
                Done (http_Error ("Failed to forward request: " +:+ err)
                        StatusInternalServerError)
            end
        | None =>
            Done (http_Error ("Unknown tool: " +:+ tool) StatusBadRequest)
        end
    | Panicked msg => Panicked msg
    end.
Proof.
  intros Ht Ha Hpath Hagent Hne Hbody Hparams.
  unfold HandleRequest. rewrite Hpath, path_parts by done.
  unfold invalid_path, index. simpl.
  rewrite Hagent. destruct (String.eqb_spec agent "") as [|_]; [done|].
  rewrite Hbody.
  assert (Hparsed : (if (0 <? String.length bodyBytes)%nat
                     then json_Unmarshal bodyBytes else Ok ∅) = Ok params).
  { destruct Hparams as [[-> ->] | [Hb Hj]]; [done|].
    destruct bodyBytes; [done | exact Hj]. }
  rewrite Hparsed.
  destruct (evaluate_locked _ _ _ _ _ _) as [[[|] reason]|msg]; simpl;
    try reflexivity.
  destruct (toolURLs g !! tool) as [toolURL|]; [|reflexivity].
  simpl. unfold forwardRequest.
  by destruct (client_Do _ _) as [err|status header copied [err|]].
Qed.

(** X19. The service of a tool is called only for a call that Evaluate
    allowed on the request's own parameters: if the response of the
    gateway depends in any way on what the services answer, then the
    request named a tool and an action, its body was read and decoded
    (the empty body to no parameters), Evaluate allowed the tool and the
    action for the agent of the request on the parameters decoded from
    that body, the tool has a base address, and the two services differ
    in what they answer to the one call made: the body as received, at
    the address of the tool and the action.  A request that is rejected,
    or denied on its parameters, is answered without any service. *)
Theorem downstream_only_when_allowed
    (client_Do client_Do' : string → string → Downstream)
    (g : Gateway) (order : list string) (r : Request) :
  fst (HandleRequest json_Unmarshal client_Do g order r)
  ≠ fst (HandleRequest json_Unmarshal client_Do' g order r) →
  ∃ tool action bodyBytes params toolURL,
    split_slash (trim_slash (URL_Path r)) !! 1 = Some tool ∧
    split_slash (trim_slash (URL_Path r)) !! 2 = Some action ∧
    Body r = Ok bodyBytes ∧
    ((bodyBytes = "" ∧ params = ∅) ∨
     (bodyBytes ≠ "" ∧ json_Unmarshal bodyBytes = Ok params)) ∧
    fst (Evaluate (policyEngine g) order
           (Header_Get (Header r) "X-Agent-ID") tool action params)
    = Done (true, "") ∧
    toolURLs g !! tool = Some toolURL ∧
    client_Do (toolURL +:+ "/" +:+ action) bodyBytes
    ≠ client_Do' (toolURL +:+ "/" +:+ action) bodyBytes.
Proof.
  unfold HandleRequest.
  generalize (split_slash (trim_slash (URL_Path r))). intros parts.
  destruct (invalid_path parts) as [[|]|msg]; try done.
  destruct parts as [|first [|tool [|action rest]]]; try done.
  unfold index. simpl.
  destruct (String.eqb _ ""); [done|].
  destruct (Body r) as [bodyBytes|err]; [|done].
  destruct (if (0 <? String.length bodyBytes)%nat
            then json_Unmarshal bodyBytes else Ok ∅) as [params|err]
    eqn:Hparams; [|done].
  assert (Hdecoded : (bodyBytes = "" ∧ params = ∅) ∨
                     (bodyBytes ≠ "" ∧ json_Unmarshal bodyBytes = Ok params)).
  { destruct bodyBytes; simpl in Hparams; [left|right].
    - by injection Hparams as <-.
    - done. }
  destruct (evaluate_locked _ _ _ _ _ params) as [[allowed reason]|msg]
    eqn:Hev; [|done].
  destruct allowed; simpl; [|done].
  destruct (toolURLs g !! tool) as [toolURL|] eqn:Hurl; [|done].
  intros Hdiffer. exists tool, action, bodyBytes, params, toolURL.
  do 4 (split; [done|]). split; [|split; [done|]].
  - simpl. rewrite Hev. f_equal. f_equal.
    by apply evaluate_locked_allowed_reason in Hev.
  - intros Hsame. apply Hdiffer. simpl. unfold forwardRequest.
    by rewrite Hsame.
Qed.

End GatewayFacts.

(** The finance agent creates a payment with an empty body: the answer
    of the payments service is handed back. *)
Lemma HandleRequest_tool_action_witness :
  fst (HandleRequest example_json example_client (NewGateway example_engine)
         ["policies/a.yaml"; "policies/b.yaml"]
         (post "/tools/payments/create" "finance-agent" ""))
  = Done {| StatusCode := 200;
            ResponseHeader := [("Content-Type", "application/json")];
            Written := body_text "{status:ok}" |}.
Proof.
  rewrite (HandleRequest_tool_action example_json example_client
             (NewGateway example_engine)
             ["policies/a.yaml"; "policies/b.yaml"]
             (post "/tools/payments/create" "finance-agent" "")
             "payments" "create" "finance-agent" "" ∅
             eq_refl eq_refl eq_refl eq_refl ltac:(discriminate) eq_refl
             (or_introl (conj eq_refl eq_refl))).
  reflexivity.
Defined.

(** The same request with the service down is answered 500: the answer
    depends on the service, and the call was allowed on the parameters
    of the request. *)
Lemma downstream_only_when_allowed_witness :
  ∃ tool action bodyBytes params toolURL,
    split_slash (trim_slash "/tools/payments/create") !! 1 = Some tool ∧
    split_slash (trim_slash "/tools/payments/create") !! 2 = Some action ∧
    Ok "" = Ok bodyBytes ∧
    ((bodyBytes = "" ∧ params = ∅) ∨
     (bodyBytes ≠ "" ∧ example_json bodyBytes = Ok params)) ∧
    fst (Evaluate example_engine ["policies/a.yaml"; "policies/b.yaml"]
           "finance-agent" tool action params)
    = Done (true, "") ∧
    toolURLs (NewGateway example_engine) !! tool = Some toolURL ∧
    example_client (toolURL +:+ "/" +:+ action) bodyBytes
    ≠ unreachable_client (toolURL +:+ "/" +:+ action) bodyBytes.
Proof.
  apply (downstream_only_when_allowed example_json example_client
           unreachable_client (NewGateway example_engine)
           ["policies/a.yaml"; "policies/b.yaml"]
           (post "/tools/payments/create" "finance-agent" "")).
  vm_compute. discriminate.
Defined.

(** * Further properties of calls and a reload in flight *)

Module ConcurrentMore.
Import Concurrent Invariant ConcurrentFacts.

Lemma inside_all_returned calls :
  Forall (λ cr, has_returned cr.2 = true) calls → inside calls = 0.
Proof.
  induction 1 as [|cr rest Hr _ IH]; [done|].
  rewrite inside_cons. by destruct (cr.2).
Qed.

(** The keys of a store, in the order [map_to_list] gives them, are an
    iteration order. *)
Lemma iteration_order_exists (store : gmap string Policy) :
  iteration_order store (map_to_list store).*1.
Proof. unfold iteration_order. reflexivity. Qed.

Section Reload.

Variable filePath : string.
Variable policy : Policy.
Variable store : gmap string Policy.

(** X20. No lock is left held: in every state the calls and the reload
    can reach, the mutex counts exactly the calls that are between their
    RLock and their RUnlock, and has a writer exactly while the reload
    is between its Lock and its Unlock.  When every call has returned
    and the reload is done, the mutex is free again and the store is the
    old one with the reloaded entry. *)
Theorem mutex_released (calls : list call) (s : state) :
  reachable filePath policy store calls s →
  readers (st_mu s) = inside (st_calls s) ∧
  writer (st_mu s) = writing (st_reload s) ∧
  (Forall (λ cr, has_returned cr.2 = true) (st_calls s) →
   st_reload s = reloaded →
   st_mu s = {| readers := 0; writer := false |} ∧
   st_policies s = <[filePath := policy]> store).
Proof.
  intros Hreach.
  destruct (invariant_reachable filePath policy store calls s Hreach)
    as [Hstore Hreaders Hwriter _ _].
  split; [done|]. split; [done|].
  intros Hall Hdone. rewrite Hdone in Hstore, Hwriter. simpl in *.
  split; [|done].
  destruct (st_mu s) as [n w]. simpl in *.
  by rewrite Hreaders, Hwriter, inside_all_returned.
Qed.

(** X21. The calls and the reload never block each other for good: in
    every state they can reach, either every call has returned and the
    reload is done, or some step can be taken. *)
Theorem no_deadlock (calls : list call) (s : state) :
  reachable filePath policy store calls s →
  (Forall (λ cr, has_returned cr.2 = true) (st_calls s) ∧
   st_reload s = reloaded) ∨
  ∃ s', step filePath policy s s'.
Proof.
  intros Hreach.
  destruct (invariant_reachable filePath policy store calls s Hreach)
    as [Hstore Hreaders Hwriter Hexcl Hcalls].
  destruct (st_reload s) eqn:Hr.
  - (* the reload waits for the lock *)
    destruct (inside (st_calls s)) as [|n] eqn:Hin.
    + right. eexists. apply step_Lock; [done | by rewrite Hwriter
                                        | by rewrite Hreaders].
    + (* a call is inside: it can go on *)
      assert (∃ i cr, st_calls s !! i = Some cr ∧ inside_RLock cr.2 = true)
        as (i & [c r] & Hi & Hinside).
      { clear -Hin. induction (st_calls s) as [|cr rest IH]; [done|].
        rewrite inside_cons in Hin.
        destruct (inside_RLock cr.2) eqn:Hcr.
        - by exists 0, cr.
        - destruct IH as (i & cr' & Hi & Hcr'); [done|].
          by exists (S i), cr'. }
      right. simpl in Hinside. destruct r as [|todo|res|res]; try done.
      * destruct todo as [|k todo].
        -- eexists. by eapply step_range_end.
        -- destruct (st_policies s !! k) as [p|] eqn:Hk.
           ++ destruct (scan_agents (Agents p) (agentID c) (tool c)
                          (action c) (params c)) as [res|] eqn:Hscan.
              ** eexists. by eapply step_range_return.
              ** eexists. by eapply step_range_continue.
           ++ eexists. by eapply step_range_gone.
      * eexists. by eapply step_RUnlock.
  - right. eexists. by apply step_assign.
  - right. eexists. by apply step_Unlock.
  - (* the reload is done: the mutex has no writer *)
    assert (Hfree : writer (st_mu s) = false) by (by rewrite Hwriter).
    destruct (decide (Forall (λ cr, has_returned cr.2 = true) (st_calls s)))
      as [Hall|Hsome]; [by left|].
    right. apply not_Forall_Exists in Hsome; [|intros cr; apply _].
    apply Exists_exists in Hsome as ([c r] & Hel & Hnot).
    apply list_elem_of_lookup in Hel as [i Hi]. simpl in Hnot.
    destruct r as [|todo|res|res].
    + eexists. eapply step_RLock; [done | done |].
      apply iteration_order_exists.
    + destruct todo as [|k todo].
      * eexists. by eapply step_range_end.
      * destruct (st_policies s !! k) as [p|] eqn:Hk.
        -- destruct (scan_agents (Agents p) (agentID c) (tool c)
                       (action c) (params c)) as [res|] eqn:Hscan.
           ++ eexists. by eapply step_range_return.
           ++ eexists. by eapply step_range_continue.
        -- eexists. by eapply step_range_gone.
    + eexists. by eapply step_RUnlock.
    + by destruct Hnot.
Qed.

End Reload.

(** A reload with no call around: after its three steps the mutex is
    free and the document is in the store. *)
Lemma mutex_released_witness :
  ∃ s,
    reachable "policies/b.yaml" open_policy readme_store [] s ∧
    st_mu s = {| readers := 0; writer := false |} ∧
    st_policies s = <["policies/b.yaml" := open_policy]> readme_store.
Proof.
  pose proof (reachable_initial "policies/b.yaml" open_policy readme_store
                []) as H0.
  run_step H0
    ltac:(fun s => constr:(step_Lock "policies/b.yaml" open_policy s
                             eq_refl eq_refl eq_refl)) H1.
  run_step H1
    ltac:(fun s => constr:(step_assign "policies/b.yaml" open_policy s
                             eq_refl)) H2.
  run_step H2
    ltac:(fun s => constr:(step_Unlock "policies/b.yaml" open_policy s
                             eq_refl)) H3.
  eexists. split; [exact H3|].
  apply (mutex_released _ _ _ _ _ H3); [constructor | reflexivity].
Defined.

(** At the start the call and the reload can both move. *)
Lemma no_deadlock_witness :
  ∃ s', step "policies/b.yaml" open_policy
          (initial readme_store [finance_call]) s'.
Proof.
  destruct (no_deadlock "policies/b.yaml" open_policy readme_store
              [finance_call] _
              (reachable_initial "policies/b.yaml" open_policy readme_store
                 [finance_call])) as [[Hall _] | Hstep].
  - apply Forall_cons in Hall as [Habs _]. discriminate Habs.
  - exact Hstep.
Defined.

End ConcurrentMore.

(** * The audit trail of a request *)

Section TelemetryFacts.

Variable json_Marshal : option (gmap string value) → result string.
Variable sha256_hex : string → string.
Variable json_Unmarshal : string → result (option (gmap string value)).
Variable client_Do : string → string → Downstream.



End TelemetryFacts.

(** The body [null] and the empty body are both evaluated on no
    parameters, and logged under different hashes: of [null] and of the
    empty object. *)
Lemma null_body_hash :
  let g := NewGateway {| mu := {| readers := 0; writer := false |};
                         policies := {[ "policies/b.yaml" := open_policy ]};
                         baseDir := "policies" |} in
  ParamsHash <$>
    log_lines
      (HandleRequest_telemetry example_marshal example_sha256
         example_json_or_nil example_measured g ["policies/b.yaml"]
         (post "/tools/payments/create" "finance-agent" "null"))
  = ["74234e98afe7498fb5daf1f36ac2d78acc339464f950703b8c019892f982b90b"] ∧
  ParamsHash <$>
    log_lines
      (HandleRequest_telemetry example_marshal example_sha256
         example_json_or_nil example_measured g ["policies/b.yaml"]
         (post "/tools/payments/create" "finance-agent" ""))
  = ["44136fa355b3678a1146ad16f7e8649e94fb4fc21fe77e8310c060f61caaff8a"].
Proof. vm_compute. auto. Qed.

